(** * lum.web-service.js: the method-call resolution pipeline

    A shallow embedding of [lib/defs.js], [lib/placeholder.js],
    [lib/utils.js] and the [WebserviceMethodCall] class of
    [lib/methodcall.js], of [_addCall] of [lib/webservice.js] and of the
    loop of [extend] of [lib/builder.js], together with the properties
    of the pipeline that the specification states and further ones that
    the code shows.

    JavaScript objects live in a heap and are addressed by reference, so
    that the aliasing between the argument bag, the URL variables, the
    request body and the query source is the one of the program.  The
    platform classes the code builds on ([Headers], [URL], [Request],
    [fetch], the serializers) are an interface, [Platform].  A property
    is read from the object and then from its prototype chain; what the
    chains hold is part of that interface ([Prototypes]).  A name that a
    file uses and neither declares nor imports throws when it is read. *)

From Stdlib Require Import ZArith Ascii.
From stdpp Require Import base option list strings pretty gmap.

Local Open Scope Z_scope.
Local Open Scope nat_scope.
Local Open Scope stdpp_scope.

(** ** The fragment of JavaScript the code runs on *)

Module Js.

Abbreviation loc := nat.

(** Primitive values and references.  A number is an integer; a string is
    a sequence of code units below 256.  [VNative] is a built-in of the
    engine or of the platform that a lookup finds on a prototype: a
    function when [callable], such as the functions of
    [Object.prototype], and an object when not, such as
    [Object.prototype] itself.  It is no object of the heap: it is known
    by [text], the string it converts to, it has no enumerable
    property, and it stays as it is. *)
Inductive value :=
| VUndef
| VNull
| VBool (b : bool)
| VNum (n : Z)
| VStr (s : string)
| VRef (l : loc)
| VNative (callable : bool) (text : string).

#[global] Instance value_eq_dec : EqDecision value.
Proof. solve_decision. Defined.

(** Own enumerable properties, in enumeration order (insertion order; the
    integer-like keys of a plain object are not moved to the front). *)
Abbreviation props := (list (string * value)).

(** Names and values, in order: the entries of a [Headers] or of a
    [URLSearchParams]. *)
Abbreviation entries := (list (string * string)).

(** A global regular expression, given by what it does at one position:
    [exec_at s] is the match array when the pattern matches a non-empty
    prefix of [s]: element 0 the matched text, then the capture groups,
    [None] for a group that took no part in the match. *)
Record RegExp := { exec_at : string → option (list (option string)) }.

(** [lib/placeholder.js]: [WebservicePathPlaceholder]. *)
Record Placeholder := { pattern : RegExp; param : nat }.

(** The platform classes that [getMimeType] tells apart. *)
Inductive host_kind :=
| URLSearchParams
| FormData
| Blob
| ReadableStream
| ArrayBufferView      (* a TypedArray or a DataView *)
| ArrayBuffer
| XMLDocument
| Document             (* a Document that is not an XMLDocument *)
| Element (ownerIsXML : bool).

#[global] Instance host_kind_eq_dec : EqDecision host_kind.
Proof. solve_decision. Defined.

(** What an object is an instance of.  A host object carries the string
    its own [toString] gives. *)
Inductive class :=
| CObject
| CArray (len : nat)
| CHeaders (es : list (string * string))
| CPlaceholder (p : Placeholder)
| CHost (k : host_kind) (rendering : string).

Record object := Obj { cls : class; own : props }.

Abbreviation Heap := (list object).

(** *** Strings *)

Definition is_white_space (c : ascii) : bool :=
  let n := nat_of_ascii c in
  (n =? 9) || (n =? 10) || (n =? 11) || (n =? 12) || (n =? 13)
  || (n =? 32) || (n =? 160).

Fixpoint trimStart (s : string) : string :=
  match s with
  | String c s' => if is_white_space c then trimStart s' else s
  | EmptyString => EmptyString
  end.

Definition trim (s : string) : string :=
  String.rev (trimStart (String.rev (trimStart s))).

Definition startsWith (s p : string) : bool := String.prefix p s.

Definition endsWith (s p : string) : bool :=
  String.prefix (String.rev p) (String.rev s).

(** Letter case is mapped on the ASCII letters, which is all that header
    names, HTTP methods and the doctype test need. *)
Definition toLowerCase_char (c : ascii) : ascii :=
  let n := nat_of_ascii c in
  if (65 <=? n) && (n <=? 90) then ascii_of_nat (n + 32) else c.

Fixpoint toLowerCase (s : string) : string :=
  match s with
  | String c s' => String (toLowerCase_char c) (toLowerCase s')
  | EmptyString => EmptyString
  end.

Fixpoint join (sep : string) (l : list string) : string :=
  match l with
  | [] => ""
  | [s] => s
  | s :: l' => s +:+ sep +:+ join sep l'
  end.

(** *** Property access *)

Fixpoint get_own (ps : props) (k : string) : value :=
  match ps with
  | [] => VUndef
  | (k', v) :: ps' => if decide (k' = k) then v else get_own ps' k
  end.

Fixpoint delete_own (ps : props) (k : string) : props :=
  match ps with
  | [] => []
  | (k', v) :: ps' =>
      if decide (k' = k) then delete_own ps' k else (k', v) :: delete_own ps' k
  end.

(** [o[k] = v] on a plain object: an existing key keeps its place. *)
Fixpoint set_own (ps : props) (k : string) (v : value) : props :=
  match ps with
  | [] => [(k, v)]
  | (k', v') :: ps' =>
      if decide (k' = k) then (k, v) :: ps' else (k', v') :: set_own ps' k v
  end.

(** [Object.assign(target, source)] on the property lists. *)
Definition assign (target source : props) : props :=
  foldl (λ t kv, set_own t kv.1 kv.2) target source.

(** What the objects of a class find on their prototype chain:
    [inherited c k] is the value of the property [k] there, [undefined]
    when the chain has none.  Every chain ends in [Object.prototype];
    which members the chains have, and the functions among them, are
    the engine's and the platform's. *)
Class Prototypes := {
  inherited : class → string → value;
  (** [b[k]] for a built-in object [b], known by its text *)
  native_member : string → string → value;
}.

(** [ps[k]] for the properties [ps] of an object of class [c]: an own
    property, whatever its value, hides an inherited one. *)
Definition read `{Prototypes} (c : class) (ps : props) (k : string) : value :=
  if decide (k ∈ ps.*1) then get_own ps k else inherited c k.

(** [o[k]] on an object: its own property, then an inherited one; the
    [length] of an array is its own. *)
Definition get_obj `{Prototypes} (o : object) (k : string) : value :=
  match cls o with
  | CArray len =>
      if decide (k = "length") then VNum (Z.of_nat len)
      else read (cls o) (own o) k
  | _ => read (cls o) (own o) k
  end.

(** [v[k]].  Of a primitive or a function the code reads [vars],
    [body], [query] and [headers] and nothing else, and they have none
    of these. *)
Definition Get `{Prototypes} (h : Heap) (v : value) (k : string) : value :=
  match v with
  | VRef l => match h !! l with Some o => get_obj o k | None => VUndef end
  | VNative false text => native_member text k
  | _ => VUndef
  end.

(** The elements of an array, as [for ... of] visits them. *)
Definition elements (o : object) : list value :=
  match cls o with
  | CArray len => (λ i : nat, get_own (own o) (pretty i)) <$> seq 0 len
  | _ => []
  end.

(** *** Tests on values *)

Definition typeof_boolean (v : value) : bool :=
  match v with VBool _ => true | _ => false end.

(** [isObj] of [@lumjs/core]: [typeof v === 'object' && v !== null]. *)
Definition isObj (v : value) : bool :=
  match v with
  | VRef _ => true
  | VNative callable _ => negb callable
  | _ => false
  end.

(** [notNil] of [@lumjs/core]: neither [undefined] nor [null]. *)
Definition notNil (v : value) : bool :=
  match v with VUndef | VNull => false | _ => true end.

Definition truthy (v : value) : bool :=
  match v with
  | VUndef | VNull => false
  | VBool b => b
  | VNum n => negb (n =? 0)%Z
  | VStr s => negb (bool_decide (s = ""))
  | VRef _ | VNative _ _ => true
  end.

Definition class_of (h : Heap) (v : value) : option class :=
  match v with
  | VRef l => cls <$> h !! l
  | _ => None
  end.

Definition isArray (h : Heap) (v : value) : bool :=
  match class_of h v with Some (CArray _) => true | _ => false end.

Definition instanceof_Headers (h : Heap) (v : value) : bool :=
  match class_of h v with Some (CHeaders _) => true | _ => false end.

Definition host_of (h : Heap) (v : value) : option host_kind :=
  match class_of h v with Some (CHost k _) => Some k | _ => None end.

(** *** ToString *)

(** The recursion goes through the heap for the elements of an array; it
    is bounded by the number of objects, and a reference met beyond that
    bound lies on a cycle, which [join] renders as the empty string. *)
Fixpoint ToString_fuel (fuel : nat) (h : Heap) (v : value) : string :=
  match v with
  | VUndef => "undefined"
  | VNull => "null"
  | VBool true => "true"
  | VBool false => "false"
  | VNum n => pretty n
  | VStr s => s
  | VRef l =>
      match h !! l with
      | None => "[object Object]"
      | Some o =>
          match cls o with
          | CArray _ =>
              match fuel with
              | 0 => ""
              | S fuel' =>
                  join "," ((λ e, if notNil e then ToString_fuel fuel' h e else "")
                              <$> elements o)
              end
          | CHeaders _ => "[object Headers]"
          | CHost _ rendering => rendering
          | CObject | CPlaceholder _ => "[object Object]"
          end
      end
  | VNative _ text => text
  end.

Definition ToString (h : Heap) (v : value) : string :=
  ToString_fuel (S (length h)) h v.

(** *** Headers *)

(** The entries of a [Headers] are kept under lower-case names.  Names
    and values are taken to be valid ones: the platform also rejects the
    others and strips the white space around a value. *)

Fixpoint headers_lookup (es : entries) (name : string) : option string :=
  match es with
  | [] => None
  | (n, v) :: es' => if decide (n = name) then Some v else headers_lookup es' name
  end.

Fixpoint headers_set (es : entries) (name v : string) : entries :=
  match es with
  | [] => [(name, v)]
  | (n, v') :: es' =>
      if decide (n = name) then (n, v) :: es' else (n, v') :: headers_set es' name v
  end.

(** [append] joins the values of a name that is already there. *)
Fixpoint headers_append (es : entries) (name v : string) : entries :=
  match es with
  | [] => [(name, v)]
  | (n, v') :: es' =>
      if decide (n = name) then (n, v' +:+ ", " +:+ v) :: es'
      else (n, v') :: headers_append es' name v
  end.

(** [new Headers(init)] for a record of names and values. *)
Definition headers_of_props (h : Heap) (init : props) : entries :=
  foldl (λ es kv, headers_append es (toLowerCase kv.1) (ToString h kv.2)) [] init.

(** [headers.get(name)]: the value, or [null]. *)
Definition headers_get (h : Heap) (headers : value) (name : string) : value :=
  match class_of h headers with
  | Some (CHeaders es) =>
      match headers_lookup es (toLowerCase name) with
      | Some v => VStr v
      | None => VNull
      end
  | _ => VNull
  end.

(** *** URLSearchParams *)

Definition query_append (q : entries) (k v : string) : entries := q ++ [(k, v)].

Definition query_delete (q : entries) (k : string) : entries :=
  filter (λ kv, kv.1 ≠ k) q.

(** [set]: the first entry of the name takes the value and the others go;
    a new name is appended. *)
Fixpoint query_set (q : entries) (k v : string) : entries :=
  match q with
  | [] => [(k, v)]
  | (k', v') :: q' =>
      if decide (k' = k) then (k, v) :: query_delete q' k
      else (k', v') :: query_set q' k v
  end.

Record URL := { url_path : string; searchParams : entries }.

(** *** Errors, requests and the state of a run *)

Inductive error :=
| TypeError (msg : string)
| RangeError (msg : string)
| ReferenceError (msg : string)
| Error (msg : string).

Inductive result (A : Type) :=
| Ok (a : A)
| Throw (e : error).
Arguments Ok {A} a.
Arguments Throw {A} e.

(** [new Request(url, reqOpts)]: the URL and the properties of [reqOpts].
    What the platform checks when it builds the request is not modelled. *)
Record Request := { req_url : URL; req_opts : props }.

(** A response: its headers, under lower-case names, and its text. *)
Record Response := { resp_headers : entries; resp_payload : string }.

End Js.

(** ** [lib/defs.js] *)

Module Defs.
Import Js.

(** [requestBody] and [responseBody]: [Some true] mandatory, [Some false]
    forbidden, [None] ([null]) optional. *)
Record HttpRules := {
  requestBody : option bool;
  responseBody : option bool;
  safe : bool;
  idempotent : bool;
  cacheable : bool;
}.

Definition GET : HttpRules :=
  {| requestBody := Some false; responseBody := Some true;
     safe := true; idempotent := true; cacheable := true |}.
Definition HEAD : HttpRules :=
  {| requestBody := Some false; responseBody := Some false;
     safe := true; idempotent := true; cacheable := true |}.
Definition POST : HttpRules :=
  {| requestBody := Some true; responseBody := Some true;
     safe := false; idempotent := false; cacheable := false |}.
Definition PUT : HttpRules :=
  {| requestBody := Some true; responseBody := None;
     safe := false; idempotent := true; cacheable := false |}.
Definition PATCH : HttpRules :=
  {| requestBody := Some true; responseBody := None;
     safe := false; idempotent := false; cacheable := false |}.
Definition DELETE : HttpRules :=
  {| requestBody := None; responseBody := None;
     safe := false; idempotent := true; cacheable := false |}.
Definition OPTIONS : HttpRules :=
  {| requestBody := None; responseBody := None;
     safe := true; idempotent := true; cacheable := false |}.

Definition STANDARD_HTTP : gmap string HttpRules :=
  list_to_map
    [("GET", GET); ("HEAD", HEAD); ("POST", POST); ("PUT", PUT);
     ("PATCH", PATCH); ("DELETE", DELETE); ("OPTIONS", OPTIONS)].

Definition TEMPLATE_HTTP : HttpRules :=
  {| requestBody := None; responseBody := None;
     safe := false; idempotent := false; cacheable := false |}.

Module MIME.
Definition FORM := "multipart/form-data".
Definition JSON := "application/json".
Definition XML := "application/xml".
Definition HTML := "text/html".
Definition XHTML := "application/xhtml+xml".
Definition TEXT := "text/plain".
Definition BIN := "application/octet-stream".
Definition URL := "application/x-www-form-urlencoded".
End MIME.

(** The character class [[\w-]]. *)
Definition is_name_char (c : ascii) : bool :=
  let n := nat_of_ascii c in
  ((48 <=? n) && (n <=? 57)) || ((65 <=? n) && (n <=? 90))
  || ((97 <=? n) && (n <=? 122)) || (n =? 95) || (n =? 45).

(** The longest run of [[\w-]] at the start of a string, and what follows. *)
Fixpoint take_name (s : string) : string * string :=
  match s with
  | String c s' =>
      if is_name_char c
      then let '(n, r) := take_name s' in (String c n, r)
      else ("", s)
  | EmptyString => ("", "")
  end.

(** [/\:([\w-]+)/g] *)
Definition COLONS_pattern : RegExp :=
  {| exec_at s :=
       match s with
       | String ":" s' =>
           match take_name s' with
           | (EmptyString, _) => None
           | (n, _) => Some [Some (":" +:+ n); Some n]
           end
       | _ => None
       end |}.

(** [/\{([\w-]+)\}/g] *)
Definition BRACES_pattern : RegExp :=
  {| exec_at s :=
       match s with
       | String "{" s' =>
           match take_name s' with
           | (EmptyString, _) => None
           | (n, String "}" _) => Some [Some ("{" +:+ n +:+ "}"); Some n]
           | _ => None
           end
       | _ => None
       end |}.

Definition COLONS : Placeholder := {| pattern := COLONS_pattern; param := 1 |}.
Definition BRACES : Placeholder := {| pattern := BRACES_pattern; param := 1 |}.

Definition PLACEHOLDERS : list (string * Placeholder) :=
  [("COLONS", COLONS); ("BRACES", BRACES)].

End Defs.

(** ** State, errors and the console *)

Module Eff.
Import Js Defs.

Inductive console_entry :=
| LogMissing (missing : list value) (data : value) (rawPath : string)
| LogUnknownMethod (http : string)
| LogGetTypeFor (data : value)
| LogMakeRequest (url : URL) (reqOpts : props) (methOpts : HttpRules)
    (headers urlData bodyData queryData : value).

(** The heap, what was written to the console, and the requests handed to
    the transport, oldest first. *)
Record state := {
  heap : Heap;
  console : list console_entry;
  dispatched : list Request;
}.

Definition M (A : Type) : Type := state → state * result A.

Definition ret {A} (a : A) : M A := λ st, (st, Ok a).

Definition throw {A} (e : error) : M A := λ st, (st, Throw e).

Definition bind {A B} (m : M A) (k : A → M B) : M B :=
  λ st, match m st with
        | (st', Ok a) => k a st'
        | (st', Throw e) => (st', Throw e)
        end.

Notation "'let*' x ':=' m 'in' k" := (bind m (λ x, k))
  (at level 10, x pattern, m at level 100, k at level 200, only parsing).

Definition get_heap : M Heap := λ st, (st, Ok (heap st)).

Definition log (e : console_entry) : M unit :=
  λ st, ({| heap := heap st; console := console st ++ [e];
            dispatched := dispatched st |}, Ok tt).

Definition dispatch (r : Request) : M unit :=
  λ st, ({| heap := heap st; console := console st;
            dispatched := dispatched st ++ [r] |}, Ok tt).

(** [new C(...)]: the object goes to a fresh location. *)
Definition alloc (o : object) : M value :=
  λ st, ({| heap := heap st ++ [o]; console := console st;
            dispatched := dispatched st |}, Ok (VRef (length (heap st)))).

(** Replace the object at a location that is in use. *)
Definition store (l : loc) (o : object) : M unit :=
  λ st, ({| heap := <[l := o]> (heap st); console := console st;
            dispatched := dispatched st |}, Ok tt).

(** The classes of the platform and of [@lumjs/web-core] that the code
    calls and does not define. *)
Class Platform := {
  (** what the classes inherit *)
  prototypes :: Prototypes;
  (** the query of [new URL(path, location.origin)] *)
  URL_search : string → entries;
  (** [JSON.stringify(data, replacer, space)] *)
  JSON_stringify : Heap → value → value → value → result value;
  (** [new XMLSerializer().serializeToString(data)] *)
  serializeToString : Heap → value → result value;
  (** [document.documentElement.outerHTML] of the page *)
  document_outerHTML : value;
  (** [data.outerHTML] *)
  outerHTML : Heap → value → value;
  (** [fetch(request)], once settled *)
  fetch : Heap → Request → result Response;
}.

Definition new_URL `{Platform} (path : string) : URL :=
  {| url_path := path; searchParams := URL_search path |}.

End Eff.

(** ** [lib/utils.js] *)

Module Utils.
Import Js Defs Eff.

(** [/^<!DOCTYPE html/i] *)
Definition DOCTYPE_HTML_test (s : string) : bool :=
  String.prefix "<!doctype html" (toLowerCase s).

Definition instanceof (h : Heap) (v : value) (k : host_kind) : bool :=
  match host_of h v with
  | Some k' => bool_decide (k' = k)
  | None => false
  end.

Definition instanceof_Element (h : Heap) (v : value) : bool :=
  match host_of h v with Some (Element _) => true | _ => false end.

(** [data.ownerDocument instanceof XMLDocument] *)
Definition ownerDocument_instanceof_XMLDocument (h : Heap) (v : value) : bool :=
  match host_of h v with Some (Element x) => x | _ => false end.

(** The local [err] of [getMimeType]. *)
Definition err {A} (data : value) (msg : string) : M A :=
  let* _ := log (LogGetTypeFor data) in throw (TypeError msg).

(** [MIME.JSON] and the like in [utils.js].  The file takes
    [STANDARD_HTTP] and [TEMPLATE_HTTP] from [defs.js] and neither
    declares nor imports the name [MIME]; it is strict code, so the read
    of the name throws, whichever member is asked for. *)
Definition MIME_member (member : string) : M string :=
  throw (ReferenceError "MIME is not defined").

Definition getMimeType (data : value) (jsonObjects : value) : M string :=
  let jsonObjects :=
    if decide (jsonObjects = VUndef) then VBool true else jsonObjects in
  match data with
  | VStr data =>
      let str := trim data in
      if (startsWith str "{" && endsWith str "}")
         || (startsWith str "[" && endsWith str "]")
      then MIME_member "JSON"
      else if startsWith str "<" && endsWith str ">"
      then (if DOCTYPE_HTML_test str then MIME_member "HTML" else MIME_member "XML")
      else MIME_member "TEXT"
  | _ =>
      if negb (isObj data) then err data "Invalid data type" else
      let* h := get_heap in
      if instanceof h data URLSearchParams then MIME_member "URL" else
      if instanceof h data FormData then MIME_member "FORM" else
      if instanceof h data Blob
         || instanceof h data ReadableStream
         || instanceof h data ArrayBufferView
      then MIME_member "BIN" else
      if instanceof h data XMLDocument then MIME_member "XML" else
      if instanceof h data Document then MIME_member "HTML" else
      if instanceof_Element h data
      then (if ownerDocument_instanceof_XMLDocument h data
            then MIME_member "XML" else MIME_member "HTML") else
      if truthy jsonObjects then MIME_member "JSON"
      else err data "Unsupported data object"
  end.

(** [null] or a boolean. *)
Definition nullable (b : option bool) : value :=
  match b with Some b => VBool b | None => VNull end.

(** A set of rules of [defs.js] as the object it is. *)
Definition HttpRules_object (r : HttpRules) : props :=
  [("requestBody", nullable (requestBody r));
   ("responseBody", nullable (responseBody r));
   ("safe", VBool (safe r));
   ("idempotent", VBool (idempotent r));
   ("cacheable", VBool (cacheable r))].

(** What [defineHTTP] writes to the console. *)
Inductive defineHTTP_console :=
| Unsupported_standard_HTTP_method (template : string) (rules : value).

(** The own properties of an object, none for another value. *)
Definition own_properties (h : Heap) (v : value) : props :=
  match v with
  | VRef l => match h !! l with Some o => own o | None => [] end
  | _ => []
  end.

(** [STANDARD_HTTP[template]] is an object for the names of the table,
    and for [__proto__], where it is [Object.prototype], which has no
    property that [Object.assign] copies; under the other names it is
    [undefined] or an inherited function, neither of which is an object.
    The result is the pair of the properties of the object returned and
    of what went to the console. *)
Definition defineHTTP (h : Heap) (template rules : value)
  : props * list defineHTTP_console :=
  let '(template, rules) :=
    if isObj template then (rules, template) else (template, rules) in
  let sources := [HttpRules_object TEMPLATE_HTTP] in
  let '(sources, console) :=
    match template with
    | VStr template =>
        match STANDARD_HTTP !! template with
        | Some r => ([HttpRules_object r], [])
        | None =>
            if decide (template = "__proto__") then ([[]], [])
            else (sources, [Unsupported_standard_HTTP_method template rules])
        end
    | _ => (sources, [])
    end in
  let sources :=
    if isObj rules then sources ++ [own_properties h rules] else sources in
  (foldl assign [] sources, console).

End Utils.

(** ** [lib/methodcall.js] *)

Module MethodCall.
Import Js Defs Eff Utils.

Definition CT := "Content-Type".
Definition AT := "Accept".

(** What a method call reads of its [Webservice]. *)
Record Webservice := {
  _id : string;
  _options : props;
  _httpMethods : gmap string HttpRules;
}.

Record WebserviceMethodCall := {
  name : string;
  http : string;
  path : string;
  options : props;
  ws : option Webservice;
}.

Definition toUpperCase_char (c : ascii) : ascii :=
  let n := nat_of_ascii c in
  if (97 <=? n) && (n <=? 122) then ascii_of_nat (n - 32) else c.

Fixpoint toUpperCase (s : string) : string :=
  match s with
  | String c s' => String (toUpperCase_char c) (toUpperCase s')
  | EmptyString => EmptyString
  end.

(** [constructor(name, urlPath, httpMethod='GET', options={})] *)
Definition constructor (name urlPath : string) (httpMethod : option string)
    (options : option props) : WebserviceMethodCall :=
  {| name := name;
     http := toUpperCase (default "GET" httpMethod);
     path := urlPath;
     options := default [] options;
     ws := None |}.

(** An argument of [setWS]: a [Webservice] instance or any other value. *)
Inductive setWS_arg :=
| AWebservice (w : Webservice)
| AValue (v : value).

(** [makeObservable] installs the event methods, which are not part of
    this model, and returns [this]. *)
Definition makeObservable (this : WebserviceMethodCall) (redo : bool)
  : WebserviceMethodCall := this.

Definition setWS (this : WebserviceMethodCall) (ws : setWS_arg)
  : result WebserviceMethodCall :=
  match ws with
  | AValue _ => Throw (TypeError "Invalid Webservice instance")
  | AWebservice w =>
      let this := {| name := name this; http := http this; path := path this;
                     options := options this; ws := Some w |} in
      Ok (makeObservable this true)
  end.

Section pipeline.
Context `{Platform}.
Variable this : WebserviceMethodCall.

(** [this.options] and [this.ws._options] are kept as the properties of
    plain objects.  The code asks them for the names of its options,
    under none of which a plain object inherits a value, so that what
    [this.options[name]] reads is the own property. *)
Definition getOption (name : string) (defVal : value) : value :=
  if decide (get_own (options this) name ≠ VUndef)
  then get_own (options this) name
  else
    match ws this with
    | Some w =>
        if decide (get_own (_options w) name ≠ VUndef)
        then get_own (_options w) name
        else defVal
    | None => defVal
    end.

(** A source of [getNestedOptions]: an object literal of the caller, or a
    value that was passed in. *)
Inductive source :=
| Literal (ps : props)
| Value (v : value).

Definition isObj_source (s : source) : bool :=
  match s with Literal _ => true | Value v => isObj v end.

(** The own properties [Object.assign] copies from a source; none for
    [undefined] and [null]. *)
Definition source_props (h : Heap) (s : source) : props :=
  match s with
  | Literal ps => ps
  | Value (VRef l) => match h !! l with Some o => own o | None => [] end
  | Value _ => []
  end.

(** The properties of the object [getNestedOptions] creates. *)
Definition getNestedOptions (h : Heap) (name : string)
    (defaults override : source) : props :=
  let sources := [defaults] in
  let sources :=
    match ws this with
    | Some w =>
        if isObj (get_own (_options w) name)
        then sources ++ [Value (get_own (_options w) name)] else sources
    | None => sources
    end in
  let sources :=
    if isObj (get_own (options this) name)
    then sources ++ [Value (get_own (options this) name)] else sources in
  let sources :=
    if isObj_source override then sources ++ [override] else sources in
  foldl (λ target s, assign target (source_props h s)) [] sources.

Definition contentType : value := getOption "contentType" VNull.
Definition acceptType : value := getOption "acceptType" VNull.

(** [typeof v === S && v.trim() !== ''] *)
Definition is_nonblank_string (v : value) : bool :=
  match v with
  | VStr s => negb (bool_decide (trim s = ""))
  | _ => false
  end.

Definition buildHeaders (localHeaders : value) : M value :=
  let* h := get_heap in
  if instanceof_Headers h localHeaders then ret localHeaders else
  let defaults : props := [] in
  let ctype := contentType in
  let atype := acceptType in
  let atype := if decide (atype = VBool true) then ctype else atype in
  let defaults :=
    if is_nonblank_string ctype then set_own defaults CT ctype else defaults in
  let defaults :=
    if is_nonblank_string atype then set_own defaults AT atype else defaults in
  let compHeaders :=
    getNestedOptions h "headers" (Literal defaults) (Value localHeaders) in
  alloc (Obj (CHeaders (headers_of_props h compHeaders)) []).

Definition httpMethods : gmap string HttpRules :=
  match ws this with
  | Some w => _httpMethods w
  | None => STANDARD_HTTP
  end.

(** [replaceAll(PATH_SEP, '/')] with [PATH_SEP = /\/+/g] *)
Fixpoint normalize_slashes (s : string) : string :=
  match s with
  | String "/" s' =>
      match s' with
      | String "/" _ => normalize_slashes s'
      | _ => String "/" (normalize_slashes s')
      end
  | String c s' => String c (normalize_slashes s')
  | EmptyString => EmptyString
  end.

Definition fullPath (h : Heap) : string :=
  let fullPath := "" in
  let fullPath :=
    match ws this with
    | Some w =>
        if truthy (get_own (_options w) "basePath")
        then ToString h (get_own (_options w) "basePath") else fullPath
    | None => fullPath
    end in
  let fullPath := fullPath +:+ "/" +:+ path this in
  normalize_slashes fullPath.

(** [path.match(pattern)] finds something. *)
Fixpoint has_match (re : RegExp) (s : string) : bool :=
  match exec_at re s with
  | Some _ => true
  | None => match s with String _ s' => has_match re s' | EmptyString => false end
  end.

(** [for (const pid in PLACEHOLDERS)]: the first rule that matches. *)
Fixpoint first_matching (rules : list (string * Placeholder)) (path : string)
  : option Placeholder :=
  match rules with
  | [] => None
  | (pid, placeholder) :: rules' =>
      if has_match (pattern placeholder) path then Some placeholder
      else first_matching rules' path
  end.

Definition getPlaceholders (h : Heap) (path : option string) : option Placeholder :=
  let placeholder := getOption "placeholders" VUndef in
  match class_of h placeholder with
  | Some (CPlaceholder p) => Some p
  | _ =>
      let path := match path with Some p => p | None => fullPath h end in
      first_matching PLACEHOLDERS path
  end.

(** [delete data[key]]; strict code may not delete the length of an array. *)
Definition delete_property (data : value) (key : string) : M unit :=
  let* h := get_heap in
  match data with
  | VRef l =>
      match h !! l with
      | Some o =>
          match cls o with
          | CArray _ =>
              if decide (key = "length")
              then throw (TypeError "Cannot delete property 'length'")
              else store l (Obj (cls o) (delete_own (own o) key))
          | _ => store l (Obj (cls o) (delete_own (own o) key))
          end
      | None => ret tt
      end
  | _ => ret tt
  end.

(** The function [parseURL] gives to [replaceAll]: the replacement value,
    and [missing] after the call. *)
Definition parseURL_replacer (placeholder : Placeholder) (data : value)
    (removeUsed : bool) (missing : list value) (arguments : list value)
  : M (list value * value) :=
  let param := nth (Js.param placeholder) arguments VUndef in
  let* h := get_heap in
  let key := ToString h param in
  if decide (Get h data key ≠ VUndef) then
    let value := Get h data key in
    let* _ := if removeUsed then delete_property data key else ret tt in
    ret (missing, value)
  else
    ret (missing ++ [param], VStr "").

Definition match_length (groups : list (option string)) : nat :=
  match groups with
  | Some m :: _ => String.length m
  | _ => 1
  end.

(** The arguments [replaceAll] calls its function with: the match and its
    groups, the offset of the match, and the whole string. *)
Definition replacer_arguments (groups : list (option string)) (pos : nat)
    (input : string) : list value :=
  ((λ g, match g with Some s => VStr s | None => VUndef end) <$> groups)
  ++ [VNum (Z.of_nat pos); VStr input].

(** [rawPath.replaceAll(placeholder.pattern, function)]: [s] is what is
    left of [input] at offset [pos], of which the first [skip] code units
    belong to the match before. *)
Fixpoint replaceAll (placeholder : Placeholder) (data : value)
    (removeUsed : bool) (input : string) (skip pos : nat) (s : string)
    (missing : list value) : M (list value * string) :=
  match s with
  | EmptyString => ret (missing, "")
  | String c s' =>
      match skip with
      | S skip' =>
          replaceAll placeholder data removeUsed input skip' (S pos) s' missing
      | 0 =>
          match exec_at (pattern placeholder) s with
          | None =>
              let* (missing, out) :=
                replaceAll placeholder data removeUsed input 0 (S pos) s' missing in
              ret (missing, String c out)
          | Some groups =>
              let arguments := replacer_arguments groups pos input in
              let* (missing, value) :=
                parseURL_replacer placeholder data removeUsed missing arguments in
              let* h := get_heap in
              let replacement := ToString h value in
              let* (missing, out) :=
                replaceAll placeholder data removeUsed input
                  (match_length groups - 1) (S pos) s' missing in
              ret (missing, replacement +:+ out)
          end
      end
  end.

Definition parseURL (data : value) (removeUsed : bool) : M URL :=
  let* h := get_heap in
  let rawPath := fullPath h in
  match getPlaceholders h (Some rawPath) with
  | None => ret (new_URL rawPath)
  | Some placeholder =>
      if negb (isObj data) then ret (new_URL rawPath) else
      let* (missing, parsedPath) :=
        replaceAll placeholder data removeUsed rawPath 0 0 rawPath [] in
      if 0 <? length missing then
        let* _ := log (LogMissing missing data rawPath) in
        throw (Error "Missing URL parameters")
      else ret (new_URL parsedPath)
  end.

Definition jsonStringifyOpts (h : Heap) : props :=
  getNestedOptions h "toJSON"
    (Literal [("replacer", VNull); ("space", VNull)]) (Value VUndef).

Definition removePlaceholdersFromData : value :=
  getOption "removePlaceholdersFromData" (VBool true).

Definition autoDecodeJSON : value := getOption "autoDecodeJSON" (VBool true).
Definition autoDecodeXML : value := getOption "autoDecodeXML" (VBool false).
Definition autoDecodeHTML : value := getOption "autoDecodeHTML" (VBool false).
Definition autoDecodeXHTML : value := getOption "autoDecodeXHTML" VNull.

Definition parseXMLOpts (h : Heap) : props :=
  getNestedOptions h "parseXMLOpts" (Value VUndef) (Value VUndef).

Definition parseHTMLOpts (h : Heap) : props :=
  getNestedOptions h "parseHTMLOpts" (Value VUndef) (Value VUndef).

(** [headers.set(name, value)] on a [Headers] instance. *)
Definition Headers_set (headers : value) (name value : string) : M unit :=
  let* h := get_heap in
  match headers with
  | VRef l =>
      match h !! l with
      | Some (Obj (CHeaders es) ps) =>
          store l (Obj (CHeaders (headers_set es (toLowerCase name) value)) ps)
      | _ => ret tt
      end
  | _ => ret tt
  end.

(** [data instanceof Document]: an [XMLDocument] is one too. *)
Definition instanceof_Document (h : Heap) (v : value) : bool :=
  instanceof h v XMLDocument || instanceof h v Document.

Definition lift {A} (r : result A) : M A := λ st, (st, r).

(** The result is the pair of [data] and [headers] of the source. *)
Definition setupBody (data headers : value) : M (value * value) :=
  let* headers := buildHeaders headers in
  let* h := get_heap in
  let contentType := headers_get h headers CT in
  let* contentType :=
    if negb (truthy contentType) && notNil data then
      let jsonObjects := getOption "jsonObjects" (VBool true) in
      let* contentType := getMimeType data jsonObjects in
      let* _ :=
        if is_nonblank_string (VStr contentType)
        then Headers_set headers CT contentType else ret tt in
      ret (VStr contentType)
    else ret contentType in
  let* h := get_heap in
  let* data :=
    if isObj data then
      if decide (contentType = VStr MIME.JSON) then
        let jsonOpts := jsonStringifyOpts h in
        lift (JSON_stringify h data (get_own jsonOpts "replacer")
                (get_own jsonOpts "space"))
      else if decide (contentType = VStr MIME.XML) then
        lift (serializeToString h data)
      else if decide (contentType = VStr MIME.HTML ∨ contentType = VStr MIME.XHTML) then
        if instanceof_Document h data then ret document_outerHTML
        else if instanceof_Element h data then ret (outerHTML h data)
        else throw (TypeError "Invalid HTML Document or Element")
      else ret data
    else ret data in
  ret (data, headers).

(** The keys [for (const key in queryData)] visits. *)
Definition keys_in (h : Heap) (v : value) : list string :=
  match v with
  | VRef l => match h !! l with Some o => (own o).*1 | None => [] end
  | _ => []
  end.

Definition elements_of (h : Heap) (v : value) : list value :=
  match v with
  | VRef l => match h !! l with Some o => elements o | None => [] end
  | _ => []
  end.

(** The body of the loop over the keys of [queryData]. *)
Definition makeRequest_query_step (h : Heap) (queryData : value)
    (query : entries) (key : string) : entries :=
  let val := Get h queryData key in
  if isArray h val then
    foldl (λ query subval, query_append query key (ToString h subval))
      query (elements_of h val)
  else if decide (val = VNull) then query_delete query key
  else query_set query key (ToString h val).

(** [for (const key in queryData) { ... }] on [url.searchParams]. *)
Definition makeRequest_query (h : Heap) (queryData : value)
    (query : entries) : entries :=
  foldl (makeRequest_query_step h queryData) query (keys_in h queryData).

(** [a ?? b] *)
Definition nullish (a b : value) : value := if notNil a then a else b.

Definition makeRequest_urlData (h : Heap) (options : value) : value :=
  nullish (Get h options "vars") options.

Definition makeRequest_bodyData (h : Heap) (methOpts : HttpRules)
    (options : value) : value :=
  if notNil (Get h options "body") then Get h options "body"
  else match requestBody methOpts with Some true => options | _ => VNull end.

Definition makeRequest_queryData (h : Heap) (methOpts : HttpRules)
    (options : value) : value :=
  if isObj (Get h options "query") then Get h options "query"
  else match requestBody methOpts with Some true => VNull | _ => options end.

Definition makeRequest (options : value) : M Request :=
  let* options :=
    if decide (options = VUndef) then alloc (Obj CObject []) else ret options in
  let knownMeths := httpMethods in
  match knownMeths !! http this with
  | None =>
      let* _ := log (LogUnknownMethod (http this)) in
      throw (Error ("Unknown HTTP method: " +:+ http this))
  | Some methOpts =>
      if decide (options = VNull)
      then throw (TypeError "Cannot read properties of null") else
      let* h := get_heap in
      let* headers := buildHeaders (Get h options "headers") in
      let* h := get_heap in
      let urlData := makeRequest_urlData h options in
      let bodyData := makeRequest_bodyData h methOpts options in
      let queryData := makeRequest_queryData h methOpts options in
      if bool_decide (requestBody methOpts = Some false) && notNil bodyData
      then throw (RangeError ("Request body forbidden for " +:+ http this)) else
      let* url := parseURL urlData (bool_decide (urlData = options)) in
      let* h := get_heap in
      let reqOpts :=
        getNestedOptions h "request" (Value VUndef)
          (Literal [("method", VStr (http this)); ("headers", headers)]) in
      let* reqOpts :=
        if notNil bodyData then
          let* body := setupBody bodyData headers in
          ret (set_own reqOpts "body" body.1)
        else ret reqOpts in
      let* h := get_heap in
      let url :=
        if isObj queryData
        then {| url_path := url_path url;
                searchParams := makeRequest_query h queryData (searchParams url) |}
        else url in
      let* _ :=
        log (LogMakeRequest url reqOpts methOpts headers urlData bodyData queryData) in
      ret {| req_url := url; req_opts := reqOpts |}
  end.

(** What [send] resolves to: the decoder applied to the response, or the
    response itself. *)
Inductive sent :=
| response_json (response : Response)
| parseXML (response : Response) (opts : props)
| parseHTML (response : Response) (opts : props)
| raw (response : Response).

(** The first callback after [fetch(request)]. *)
Definition send_decode (h : Heap) (doJSON doXML doHTML doXHTML : value)
    (response : Response) : sent :=
  match headers_lookup (resp_headers response) (toLowerCase CT) with
  | Some ctype =>
      if truthy doJSON && bool_decide (ctype = MIME.JSON)
      then response_json response else
      let parseXML' := parseXML response (set_own (parseXMLOpts h) "type" (VStr ctype)) in
      let parseHTML' := parseHTML response (parseHTMLOpts h) in
      if truthy doXML && bool_decide (ctype = MIME.XML) then parseXML' else
      if truthy doHTML && bool_decide (ctype = MIME.HTML) then parseHTML' else
      if truthy doXHTML && bool_decide (ctype = MIME.XHTML) then
        if truthy doHTML then parseHTML' else parseXML'
      else raw response
  | None => raw response
  end.

Definition send_doXHTML (doXML doHTML : value) : value :=
  if truthy doXML || truthy doHTML then
    let doXHTML := autoDecodeXHTML in
    if negb (typeof_boolean doXHTML) then doHTML else doXHTML
  else VBool false.

(** The [response] and [data] events are not part of this model. *)
Definition send (options : value) : M sent :=
  let* request := makeRequest options in
  let doJSON := autoDecodeJSON in
  let doXML := autoDecodeXML in
  let doHTML := autoDecodeHTML in
  let doXHTML := send_doXHTML doXML doHTML in
  let* _ := dispatch request in
  let* h := get_heap in
  let* response := lift (fetch h request) in
  ret (send_decode h doJSON doXML doHTML doXHTML response).

End pipeline.
End MethodCall.

(** ** [lib/webservice.js] *)

Module Service.
Import Js Defs Eff Utils MethodCall.

(** The names every object inherits from [Object.prototype]. *)
Definition Object_prototype : list string :=
  ["constructor"; "__defineGetter__"; "__defineSetter__"; "hasOwnProperty";
   "__lookupGetter__"; "__lookupSetter__"; "isPrototypeOf";
   "propertyIsEnumerable"; "toString"; "valueOf"; "__proto__";
   "toLocaleString"].

(** What [_addCall] writes to the console. *)
Inductive _addCall_console :=
| console_error (methodCall : WebserviceMethodCall)
| console_debug (msg : string) (methodCall : WebserviceMethodCall).

(** A [Webservice] as [_addCall] sees it: the own properties of
    [_methodCalls], in order; the names [n] for which [this[n]] is not
    [undefined], own or inherited; and what was written to the console. *)
Record Instance := {
  _methodCalls : list (string * WebserviceMethodCall);
  members : list string;
  written : list _addCall_console;
}.

(** An argument of [_addCall]: a [MethodCall] instance or any other value. *)
Inductive _addCall_arg :=
| AMethodCall (methodCall : WebserviceMethodCall)
| AOther (v : value).

(** [this._methodCalls[name] !== undefined] on the plain object
    [_methodCalls], whose values are method calls. *)
Definition has_call (this : Instance) (name : string) : bool :=
  bool_decide (name ∈ (_methodCalls this).*1)
  || bool_decide (name ∈ Object_prototype).

(** The result is the instance after the call, and what the call
    returns or throws. *)
Definition _addCall (this : Instance) (methodCall : _addCall_arg)
  : Instance * result unit :=
  match methodCall with
  | AOther _ => (this, Throw (TypeError "Invalid MethodCall instance"))
  | AMethodCall methodCall =>
      if has_call this (name methodCall) then
        ({| _methodCalls := _methodCalls this; members := members this;
            written := written this ++ [console_error methodCall] |},
         Throw (RangeError "Duplicate MethodCall name found"))
      else
        let this :=
          {| _methodCalls := _methodCalls this ++ [(name methodCall, methodCall)];
             members := members this; written := written this |} in
        if bool_decide (name methodCall ∈ members this) then
          ({| _methodCalls := _methodCalls this; members := members this;
              written := written this ++ [console_debug "Reserved name" methodCall] |},
           Ok tt)
        else
          ({| _methodCalls := _methodCalls this;
              members := members this ++ [name methodCall];
              written := written this |}, Ok tt)
  end.

End Service.

(** ** [lib/builder.js] *)

Module Builder.
Import Js Defs Eff Utils MethodCall Service.

(** Of the builder, the loop of [extend] over [this._methods]: each
    method call gets the service and is added to it.  [ws] is the
    service as the method calls read it, [instance] as [_addCall] sees
    it. *)
Fixpoint extend_methods (ws : Webservice) (instance : Instance)
    (_methods : list WebserviceMethodCall) : Instance * result unit :=
  match _methods with
  | [] => (instance, Ok tt)
  | methodCall :: _methods' =>
      match setWS methodCall (AWebservice ws) with
      | Throw e => (instance, Throw e)
      | Ok methodCall =>
          match _addCall instance (AMethodCall methodCall) with
          | (instance, Ok _) => extend_methods ws instance _methods'
          | (instance, Throw e) => (instance, Throw e)
          end
      end
  end.

End Builder.

(** ** Sample data: a platform, services and objects for the examples *)

Module Sample.
Import Js Defs Eff MethodCall.

Definition hex_digit (n : nat) : ascii :=
  ascii_of_nat (if n <? 10 then 48 + n else 87 + n).

(** One code unit inside a JSON string. *)
Definition quote_char (c : ascii) : string :=
  let n := nat_of_ascii c in
  if n =? 34 then String "\" (String "034" "")
  else if n =? 92 then String "\" (String "\" "")
  else if n =? 8 then "\b"
  else if n =? 9 then "\t"
  else if n =? 10 then "\n"
  else if n =? 12 then "\f"
  else if n =? 13 then "\r"
  else if n <? 32
  then "\u00" +:+ String (hex_digit (n / 16)) (String (hex_digit (n mod 16)) "")
  else String c "".

Fixpoint quote_chars (s : string) : string :=
  match s with
  | String c s' => quote_char c +:+ quote_chars s'
  | EmptyString => EmptyString
  end.

Definition quote (s : string) : string :=
  String "034" (quote_chars s +:+ String "034" "").

(** A member of an object; none for a value that is [undefined]. *)
Definition member (key : string) (r : option string) : option string :=
  (λ t, quote key +:+ ":" +:+ t) <$> r.

(** [JSON.stringify(v)], without replacer and indentation, for
    primitives, arrays and objects without a [toJSON]: [Some None] is
    [undefined], and [None] the [TypeError] of a cyclic value. *)
Fixpoint stringify (fuel : nat) (h : Heap) (v : value) : option (option string) :=
  match v with
  | VUndef => Some None
  | VNull => Some (Some "null")
  | VBool true => Some (Some "true")
  | VBool false => Some (Some "false")
  | VNum n => Some (Some (pretty n))
  | VStr s => Some (Some (quote s))
  | VNative callable _ => if callable then Some None else Some (Some "{}")
  | VRef l =>
      match fuel with
      | 0 => None
      | S fuel' =>
          match h !! l with
          | None => Some (Some "{}")
          | Some o =>
              match cls o with
              | CArray _ =>
                  items ← mapM (λ e, default "null" <$> stringify fuel' h e)
                             (elements o);
                  Some (Some ("[" +:+ join "," items +:+ "]"))
              | _ =>
                  members ← mapM (λ kv : string * value,
                                    member kv.1 <$> stringify fuel' h kv.2)
                               (own o);
                  Some (Some ("{" +:+ join "," (omap id members) +:+ "}"))
              end
          end
      end
  end.

(** The members of [Object.prototype] as a plain object inherits them:
    the functions under their names, [Object] as the [constructor], and
    the prototype itself under [__proto__].  Other classes have more
    members, and some of these replaced; the examples do not ask for
    them.  The one built-in object is [Object.prototype], which has
    these members for its own and [null] for its prototype. *)
Definition Object_prototype_member (proto : value) (k : string) : value :=
  if decide (k = "__proto__") then proto
  else if decide (k = "constructor")
  then VNative true "function Object() { [native code] }"
  else if decide (k ∈ Service.Object_prototype)
  then VNative true ("function " +:+ k +:+ "() { [native code] }")
  else VUndef.

Definition inheritance : Prototypes :=
  {| inherited := λ c k,
       Object_prototype_member (VNative false "[object Object]") k;
     native_member := λ text k,
       if decide (text = "[object Object]") then Object_prototype_member VNull k
       else VUndef |}.

(** A platform for paths without a query part: a new URL has no search
    parameters, [JSON.stringify] is [stringify] (the replacer and the
    indentation are not applied), the other serializers give a fixed
    text, and [fetch] settles with the given response. *)
Definition platform (response : Response) : Platform :=
  {| prototypes := inheritance;
     URL_search := λ _, [];
     JSON_stringify := λ h data _ _,
       match stringify (S (length h)) h data with
       | Some (Some s) => Ok (VStr s)
       | Some None => Ok VUndef
       | None => Throw (TypeError "cyclic object value")
       end;
     serializeToString := λ _ _, Ok (VStr "<x/>");
     document_outerHTML := VStr "<html></html>";
     outerHTML := λ _ _, VStr "<p></p>";
     fetch := λ _ _, Ok response |}.

Definition response_of (ctype : string) : Response :=
  {| resp_headers := [("content-type", ctype)]; resp_payload := "" |}.

Definition initial (h : Heap) : state :=
  {| heap := h; console := []; dispatched := [] |}.

Definition service (id : string) : Webservice :=
  {| _id := id; _options := []; _httpMethods := STANDARD_HTTP |}.

End Sample.

(** ** Notions the properties are stated with *)

Module Spec.
Import Js Defs Eff Utils MethodCall.

(** *** States *)

Definition with_heap (st : state) (h : Heap) : state :=
  {| heap := h; console := console st; dispatched := dispatched st |}.

Definition logged (e : console_entry) (st : state) : state :=
  {| heap := heap st; console := console st ++ [e]; dispatched := dispatched st |}.

Definition with_dispatched (st : state) (request : Request) : state :=
  {| heap := heap st; console := console st;
     dispatched := dispatched st ++ [request] |}.

(** A computation that leaves the state as it is. *)
Definition keeps_state {A} (m : M A) : Prop := ∀ st, (m st).1 = st.

(** *** Sniffing *)

(** The [jsonObjects] argument, with its default. *)
Definition jsonObjects_enabled (jsonObjects : value) : bool :=
  truthy (if decide (jsonObjects = VUndef) then VBool true else jsonObjects).

(** *** Placeholders *)

(** The property key of a primitive value. *)
Definition key_of (param : value) : string := ToString [] param.

(** The [param] of every match of the pattern, in the order of the
    matches: the pure part of [replaceAll]. *)
Fixpoint params_in (placeholder : Placeholder) (input : string)
    (skip pos : nat) (s : string) : list value :=
  match s with
  | EmptyString => []
  | String c s' =>
      match skip with
      | S skip' => params_in placeholder input skip' (S pos) s'
      | 0 =>
          match exec_at (pattern placeholder) s with
          | None => params_in placeholder input 0 (S pos) s'
          | Some groups =>
              nth (param placeholder) (replacer_arguments groups pos input) VUndef
              :: params_in placeholder input (match_length groups - 1) (S pos) s'
          end
      end
  end.

(** What the matches do to the properties of the data, an object of
    class [c], and the parameters they find missing: a parameter is
    found when the data has a value for it, own or inherited, and what
    is removed is the own property. *)
Fixpoint strip `{Prototypes} (c : class) (removeUsed : bool) (ps : props)
    (params : list value) : props * list value :=
  match params with
  | [] => (ps, [])
  | p :: params' =>
      if decide (read c ps (key_of p) ≠ VUndef)
      then strip c removeUsed
             (if removeUsed then delete_own ps (key_of p) else ps) params'
      else ((strip c removeUsed ps params').1,
            p :: (strip c removeUsed ps params').2)
  end.

Definition not_array (c : class) : Prop := ∀ n, c ≠ CArray n.

(** The keys of the parameters that the data resolves. *)
Definition used_keys `{Prototypes} (c : class) (ps : props)
    (params : list value) : list string :=
  filter (λ k, read c ps k ≠ VUndef) (key_of <$> params).

(** A parameter the data has no value for, own or inherited. *)
Definition unresolved `{Prototypes} (c : class) (ps : props) (p : value) : Prop :=
  read c ps (key_of p) = VUndef.

#[global] Instance unresolved_dec `{Prototypes} c ps p : Decision (unresolved c ps p).
Proof. unfold unresolved. apply _. Defined.

(** A parameter the properties have no value of their own for. *)
Definition lacking (ps : props) (p : value) : Prop :=
  get_own ps (key_of p) = VUndef.

#[global] Instance lacking_dec ps p : Decision (lacking ps p).
Proof. unfold lacking. apply _. Defined.

(** The errors of URL resolution: a missing parameter, and the deletion
    of the length of an array. *)
Definition resolution_error (e : error) : Prop :=
  e = Error "Missing URL parameters"
  ∨ e = TypeError "Cannot delete property 'length'".

(** A computation that throws nothing but resolution errors. *)
Definition resolution_errors_only {A} (m : M A) : Prop :=
  ∀ st st' e, m st = (st', Throw e) → resolution_error e.

(** *** The argument bag *)

Section requests.
Context `{Platform}.
Variable this : WebserviceMethodCall.



End requests.

(** *** Decoding *)

(** The XHTML toggle as the specification resolves it: the option when
    it is a boolean, the HTML toggle when it is not set to one. *)
Definition resolved_XHTML (this : WebserviceMethodCall) : value :=
  if typeof_boolean (autoDecodeXHTML this) then autoDecodeXHTML this
  else autoDecodeHTML this.

(** *** What a run leaves alone *)

Definition is_Headers (o : object) : Prop := ∃ es, cls o = CHeaders es.

(** [st] as a state reached from [st0]: every object of [st0] is as it
    was, unless it is exempt; nothing more was handed to the transport;
    the console and the heap have only grown. *)
Definition within (exempt : loc → object → Prop) (st0 st : state) : Prop :=
  (∀ l o, heap st0 !! l = Some o → exempt l o ∨ heap st !! l = Some o)
  ∧ dispatched st = dispatched st0
  ∧ console st0 `prefix_of` console st
  ∧ length (heap st0) ≤ length (heap st).

(** A computation that keeps its state within that of [st0]. *)
Definition respects (exempt : loc → object → Prop) (st0 : state) {A} (m : M A)
  : Prop :=
  ∀ st, within exempt st0 st → within exempt st0 (m st).1.

(** The data of a URL resolution may be changed where it is exempt. *)
Definition strippable (exempt : loc → object → Prop) (st0 : state)
    (data : value) : Prop :=
  ∀ l o0, data = VRef l → heap st0 !! l = Some o0 → exempt l o0.

(** A computation that keeps [I] of the state, and returns, when it
    returns, something with the property [P]. *)
Definition ensures {A} (I : state → Prop) (P : A → Prop) (m : M A) : Prop :=
  ∀ st, I st → I (m st).1 ∧ ∀ a, (m st).2 = Ok a → P a.

(** The object at [l] is an instance of [Headers]. *)
Definition Headers_at (l : loc) (st : state) : Prop :=
  ∃ es ps, heap st !! l = Some (Obj (CHeaders es) ps).

(** *** The resolved path *)

(** The path with every match of the pattern replaced by the text of the
    value that [ps] has for its name, and by nothing when [ps] has none;
    the values are read from [ps] as it is, whatever is removed
    meanwhile.  [skip] and [pos] are those of [replaceAll]. *)
Fixpoint substitute (placeholder : Placeholder) (h : Heap) (ps : props)
    (input : string) (skip pos : nat) (s : string) : string :=
  match s with
  | EmptyString => ""
  | String c s' =>
      match skip with
      | S skip' => substitute placeholder h ps input skip' (S pos) s'
      | 0 =>
          match exec_at (pattern placeholder) s with
          | None => String c (substitute placeholder h ps input 0 (S pos) s')
          | Some groups =>
              let p := nth (param placeholder) (replacer_arguments groups pos input) VUndef in
              (if decide (lacking ps p) then ""
               else ToString h (get_own ps (key_of p)))
              +:+ substitute placeholder h ps input (match_length groups - 1) (S pos) s'
          end
      end
  end.

(** *** The placeholder syntax of a path *)

Definition is_name (n : string) : Prop :=
  n ≠ "" ∧ Forall (λ c, is_name_char c = true) (String.list_ascii_of_string n).

(** [s] has a colon with a character of a name after it. *)
Definition has_colon_name (s : string) : Prop :=
  ∃ a c b, s = a +:+ String ":" (String c b) ∧ is_name_char c = true.

(** [s] has a name in braces. *)
Definition has_braced_name (s : string) : Prop :=
  ∃ a n b, s = a +:+ String "{" (n +:+ String "}" b) ∧ is_name n.

(** *** Layers of options *)

(** The group of options [name] of the service of a method call. *)
Definition service_group (this : WebserviceMethodCall) (name : string) : value :=
  match ws this with
  | Some w => get_own (_options w) name
  | None => VUndef
  end.

(** The value of [k] in the last of the layers that has the key [k]. *)
Fixpoint topmost (layers : list props) (k : string) : value :=
  match layers with
  | [] => VUndef
  | ps :: layers' => if decide (k ∈ ps.*1) then get_own ps k else topmost layers' k
  end.

(** *** The body *)

(** The second half of [setupBody]: what becomes of [data] under the
    content type that was found. *)
Definition setupBody_serialize `{Platform} (this : WebserviceMethodCall)
    (data contentType : value) : M value :=
  let* h := get_heap in
  if isObj data then
    if decide (contentType = VStr MIME.JSON) then
      let jsonOpts := jsonStringifyOpts this h in
      lift (JSON_stringify h data (get_own jsonOpts "replacer")
              (get_own jsonOpts "space"))
    else if decide (contentType = VStr MIME.XML) then
      lift (serializeToString h data)
    else if decide (contentType = VStr MIME.HTML ∨ contentType = VStr MIME.XHTML) then
      if instanceof_Document h data then ret document_outerHTML
      else if instanceof_Element h data then ret (outerHTML h data)
      else throw (TypeError "Invalid HTML Document or Element")
    else ret data
  else ret data.

(** The bodies that go to the transport as they are: the platform
    serializes them itself. *)
Definition transport_body (k : host_kind) : Prop :=
  k = URLSearchParams ∨ k = FormData ∨ k = Blob ∨ k = ReadableStream
  ∨ k = ArrayBufferView.

(** *** The method calls of a service *)

(** The names of the method calls are distinct, and none is a name
    of [Object.prototype]. *)
Definition distinct_calls (this : Service.Instance) : Prop :=
  NoDup (Service._methodCalls this).*1
  ∧ ∀ n, n ∈ (Service._methodCalls this).*1 → n ∉ Service.Object_prototype.

(** A method call after [setWS]. *)
Definition attached (w : Webservice) (methodCall : WebserviceMethodCall)
  : WebserviceMethodCall :=
  {| name := name methodCall; http := http methodCall; path := path methodCall;
     options := options methodCall; ws := Some w |}.

End Spec.

(** ** Properties of [lib/utils.js] *)

Module UtilsFacts.
Import Js Defs Eff Utils Spec.

Lemma append_cons (c : ascii) (s t : string) :
  String c s +:+ t = String c (s +:+ t).
Proof. reflexivity. Qed.

Lemma append_empty_l (s : string) : "" +:+ s = s.
Proof. reflexivity. Qed.

Ltac unfold_append := rewrite ?append_cons, ?append_empty_l in *.

(** [getMimeType] never returns a type: it throws, and leaves the heap
    and the transport as they are. *)
Lemma getMimeType_throws (data jsonObjects : value) (st : state) :
  ∃ st' e,
    getMimeType data jsonObjects st = (st', Throw e)
    ∧ heap st' = heap st ∧ dispatched st' = dispatched st
    ∧ (e = ReferenceError "MIME is not defined" ∧ st' = st
       ∨ (∃ msg, e = TypeError msg) ∧ st' = logged (LogGetTypeFor data) st).
Proof.
  unfold getMimeType, MIME_member, err, bind, get_heap, log, throw, logged.
  destruct data; simpl;
    repeat match goal with
           | |- context [if ?b then _ else _] => destruct b
           end;
    eexists _, _; (split; [reflexivity |]); simpl; eauto 6.
Qed.

(** A string gets no type. *)
Lemma getMimeType_string (data : string) (jsonObjects : value) (st : state) :
  getMimeType (VStr data) jsonObjects st
  = (st, Throw (ReferenceError "MIME is not defined")).
Proof. unfold getMimeType, MIME_member, throw. by repeat case_match. Qed.

(** An object gets none either; one of no known kind is refused by
    [err] when [jsonObjects] is disabled. *)
Lemma getMimeType_object (l : loc) (jsonObjects : value) (st : state) :
  getMimeType (VRef l) jsonObjects st
  = match host_of (heap st) (VRef l) with
    | Some ArrayBuffer | None =>
        if jsonObjects_enabled jsonObjects
        then (st, Throw (ReferenceError "MIME is not defined"))
        else (logged (LogGetTypeFor (VRef l)) st,
              Throw (TypeError "Unsupported data object"))
    | Some _ => (st, Throw (ReferenceError "MIME is not defined"))
    end.
Proof.
  unfold getMimeType, MIME_member, jsonObjects_enabled, bind, get_heap, instanceof,
    instanceof_Element, ownerDocument_instanceof_XMLDocument,
    err, log, throw, logged.
  simpl. destruct (host_of (heap st) (VRef l)) as [k|]; simpl.
  - destruct k as [| | | | | | | |[]]; simpl; try reflexivity.
    by destruct (truthy _).
  - by destruct (truthy _).
Qed.

(** The strings the specification lists: none gets a type. *)
Example getMimeType_strings (st : state) :
  getMimeType (VStr ("{" +:+ String "034" ("a" +:+ String "034" ":1}"))) VUndef st
    = (st, Throw (ReferenceError "MIME is not defined"))
  ∧ getMimeType (VStr "<!DOCTYPE html><p>x</p>") VUndef st
    = (st, Throw (ReferenceError "MIME is not defined"))
  ∧ getMimeType (VStr "<a>1</a>") VUndef st
    = (st, Throw (ReferenceError "MIME is not defined"))
  ∧ getMimeType (VStr "hello") VUndef st
    = (st, Throw (ReferenceError "MIME is not defined")).
Proof. repeat split. Qed.

(** C4 does not hold of the code.  [getMimeType] classifies nothing: it
    names each type as a member of [MIME], a name that [utils.js] does
    not have, so for every string, and for every object where it would
    have a type to give, it throws [ReferenceError].  What is left of
    the claim is the error for an object of no known kind when
    [jsonObjects] is disabled.  No call returns. *)
Theorem getMimeType_MIME_is_not_defined :
  (∀ (data : string) (jsonObjects : value) (st : state),
     getMimeType (VStr data) jsonObjects st
     = (st, Throw (ReferenceError "MIME is not defined")))
  ∧ (∀ (l : loc) (jsonObjects : value) (st : state),
       getMimeType (VRef l) jsonObjects st
       = match host_of (heap st) (VRef l) with
         | Some ArrayBuffer | None =>
             if jsonObjects_enabled jsonObjects
             then (st, Throw (ReferenceError "MIME is not defined"))
             else (logged (LogGetTypeFor (VRef l)) st,
                   Throw (TypeError "Unsupported data object"))
         | Some _ => (st, Throw (ReferenceError "MIME is not defined"))
         end)
  ∧ (∀ (data jsonObjects : value) (st st' : state) (type : string),
       getMimeType data jsonObjects st ≠ (st', Ok type)).
Proof.
  split; [exact getMimeType_string |]. split; [exact getMimeType_object |].
  intros data jsonObjects st st' type Hreturns.
  destruct (getMimeType_throws data jsonObjects st) as (st1 & e & Hthrows & _).
  congruence.
Qed.

End UtilsFacts.

(** ** Properties of [lib/methodcall.js] *)

Module MethodCallFacts.
Import Js Defs Eff Utils MethodCall Spec.

(** *** Resolution of the placeholders *)

Section resolution.
Context `{Platform}.
Variable this : WebserviceMethodCall.

Lemma with_heap_id (st : state) : with_heap st (heap st) = st.
Proof. by destruct st. Qed.

Lemma bind_Ok {A B} (m : M A) (k : A → M B) (st st' : state) (a : A) :
  m st = (st', Ok a) → bind m k st = k a st'.
Proof. unfold bind. by intros ->. Qed.

Lemma bind_Throw {A B} (m : M A) (k : A → M B) (st st' : state) (e : error) :
  m st = (st', Throw e) → bind m k st = (st', Throw e).
Proof. unfold bind. by intros ->. Qed.

Lemma ToString_prim (h : Heap) (v : value) :
  isObj v = false → ToString h v = key_of v.
Proof. by destruct v as [| |[]| | | |[]]. Qed.

Lemma nth_prim (vs : list value) (n : nat) :
  Forall (λ v, isObj v = false) vs → isObj (nth n vs VUndef) = false.
Proof.
  intros Hvs. revert n. induction Hvs as [|v vs Hv _ IH]; intros [|n]; simpl; auto.
Qed.

Lemma replacer_arguments_prim groups pos input (n : nat) :
  isObj (nth n (replacer_arguments groups pos input) VUndef) = false.
Proof.
  apply nth_prim. unfold replacer_arguments. apply Forall_app. split.
  - apply Forall_fmap, Forall_forall. by intros [s|] _.
  - by repeat constructor.
Qed.

Lemma get_obj_not_array (c : class) (ps : props) (k : string) :
  not_array c → get_obj (Obj c ps) k = read c ps k.
Proof. intros Hc. unfold get_obj. simpl. destruct c; try done. by destruct (Hc len). Qed.

Lemma delete_property_object (st : state) (l : loc) (c : class) (ps : props)
    (key : string) :
  not_array c → heap st !! l = Some (Obj c ps) →
  delete_property (VRef l) key st
  = (with_heap st (<[l := Obj c (delete_own ps key)]> (heap st)), Ok tt).
Proof.
  intros Hc Hl. unfold delete_property, bind, get_heap. rewrite Hl. simpl.
  destruct c; try done. by destruct (Hc len).
Qed.

Lemma parseURL_replacer_object (placeholder : Placeholder) (removeUsed : bool)
    (missing : list value) groups pos input (st : state) (l : loc) (c : class)
    (ps : props) :
  not_array c → heap st !! l = Some (Obj c ps) →
  let param := nth (param placeholder) (replacer_arguments groups pos input) VUndef in
  parseURL_replacer placeholder (VRef l) removeUsed missing
    (replacer_arguments groups pos input) st
  = if decide (read c ps (key_of param) ≠ VUndef)
    then ((if removeUsed
           then with_heap st (<[l := Obj c (delete_own ps (key_of param))]> (heap st))
           else st),
          Ok (missing, read c ps (key_of param)))
    else (st, Ok (missing ++ [param], VStr "")).
Proof.
  intros Hc Hl param. unfold parseURL_replacer, bind at 1, get_heap. fold param.
  rewrite (ToString_prim _ param) by apply replacer_arguments_prim.
  unfold Get. rewrite Hl, get_obj_not_array by done.
  destruct (decide (read c ps (key_of param) ≠ VUndef)); [|done].
  destruct removeUsed.
  - by rewrite (bind_Ok _ _ _ _ _ (delete_property_object st l c ps _ Hc Hl)).
  - done.
Qed.

Lemma replaceAll_object (placeholder : Placeholder) (removeUsed : bool)
    (input : string) (l : loc) (c : class) :
  not_array c →
  ∀ (s : string) (skip pos : nat) (missing : list value) (st : state) (ps : props),
    heap st !! l = Some (Obj c ps) →
    let r := strip c removeUsed ps (params_in placeholder input skip pos s) in
    ∃ out : string,
      replaceAll placeholder (VRef l) removeUsed input skip pos s missing st
      = (with_heap st (<[l := Obj c r.1]> (heap st)), Ok (missing ++ r.2, out)).
Proof.
  intros Hc. induction s as [|ch s IH]; intros skip pos missing st ps Hl.
  - exists "". simpl. unfold ret. by rewrite list_insert_id, with_heap_id, app_nil_r.
  - destruct skip as [|skip]; [|apply IH, Hl].
    cbn [replaceAll params_in].
    destruct (exec_at (pattern placeholder) (String ch s)) as [groups|] eqn:Hexec.
    + unfold bind at 1.
      rewrite (parseURL_replacer_object placeholder removeUsed missing groups
                 pos input st l c ps Hc Hl).
      cbn [strip]. set (p := nth _ _ _).
      destruct (decide (read c ps (key_of p) ≠ VUndef)) as [Hp|Hp].
      * destruct removeUsed.
        -- unfold bind at 1, get_heap.
           edestruct (IH (match_length groups - 1) (S pos) missing
                        (with_heap st (<[l := Obj c (delete_own ps (key_of p))]> (heap st)))
                        (delete_own ps (key_of p))) as [out Hout].
           { simpl. apply list_lookup_insert_eq. by eapply lookup_lt_Some. }
           erewrite bind_Ok by apply Hout. eexists.
           unfold ret, with_heap. simpl. by rewrite list_insert_insert_eq.
        -- unfold bind at 1, get_heap.
           edestruct (IH (match_length groups - 1) (S pos) missing st ps Hl)
             as [out Hout].
           erewrite bind_Ok by apply Hout. by eexists.
      * unfold bind at 1, get_heap.
        edestruct (IH (match_length groups - 1) (S pos) (missing ++ [p]) st ps Hl)
          as [out Hout].
        erewrite bind_Ok by apply Hout. eexists. unfold ret. simpl.
        by rewrite <- app_assoc.
    + edestruct (IH 0 (S pos) missing st ps Hl) as [out Hout].
      erewrite bind_Ok by apply Hout. by eexists.
Qed.

(** **** What [strip] computes *)

Lemma delete_own_filter (ps : props) (k : string) :
  delete_own ps k = filter (λ kv, kv.1 ≠ k) ps.
Proof.
  induction ps as [|[k' v] ps IH]; [done |]. simpl. rewrite filter_cons. simpl.
  destruct (decide (k' = k)), (decide (k' ≠ k)); try done. by rewrite IH.
Qed.

Lemma get_own_delete_ne (ps : props) (k k' : string) :
  k ≠ k' → get_own (delete_own ps k) k' = get_own ps k'.
Proof.
  intros Hne. induction ps as [|[k0 v] ps IH]; [done |]. simpl.
  destruct (decide (k0 = k)) as [->|Hk0]; simpl.
  - by destruct (decide (k = k')).
  - destruct (decide (k0 = k')); [done | apply IH].
Qed.

Lemma get_own_filter_in (P : string * value → Prop) `{!∀ kv, Decision (P kv)}
    (ps : props) (k : string) :
  (∀ v, P (k, v)) → get_own (filter P ps) k = get_own ps k.
Proof.
  intros Hk. induction ps as [|[k' v] ps IH]; [done |]. rewrite filter_cons.
  destruct (decide (P (k', v))) as [HP|HP]; simpl.
  - destruct (decide (k' = k)); [done | apply IH].
  - destruct (decide (k' = k)) as [->|]; [by destruct HP | apply IH].
Qed.

Lemma keys_delete_own (ps : props) (k k' : string) :
  k' ∈ (delete_own ps k).*1 ↔ k' ∈ ps.*1 ∧ k' ≠ k.
Proof.
  rewrite delete_own_filter, !list_elem_of_fmap. split.
  - intros ([k0 v] & -> & [Hne Hin]%list_elem_of_filter).
    split; [by exists (k0, v) | done].
  - intros [([k0 v] & -> & Hin) Hne]. exists (k0, v).
    split; [done |]. by apply list_elem_of_filter.
Qed.

(** A deleted key reads what the prototype chain has under it. *)
Lemma read_delete_eq (c : class) (ps : props) (k : string) :
  read c (delete_own ps k) k = inherited c k.
Proof. unfold read. rewrite decide_False; [done |]. rewrite keys_delete_own. tauto. Qed.

Lemma read_delete_ne (c : class) (ps : props) (k k' : string) :
  k ≠ k' → read c (delete_own ps k) k' = read c ps k'.
Proof.
  intros Hne. unfold read. rewrite get_own_delete_ne by done.
  destruct (decide (k' ∈ ps.*1)) as [Hin|Hin].
  - rewrite decide_True; [done |]. rewrite keys_delete_own. split; congruence.
  - rewrite decide_False; [done |]. rewrite keys_delete_own. tauto.
Qed.

Lemma keys_filter (P : string * value → Prop) `{!∀ kv, Decision (P kv)}
    (ps : props) (k : string) :
  (∀ v, ¬ P (k, v)) → k ∉ (filter P ps).*1.
Proof.
  intros Hk. rewrite list_elem_of_fmap.
  intros ([k0 v] & -> & [HP _]%list_elem_of_filter). by apply (Hk v).
Qed.

Lemma read_filter_out (c : class) (P : string * value → Prop)
    `{!∀ kv, Decision (P kv)} (ps : props) (k : string) :
  (∀ v, ¬ P (k, v)) → read c (filter P ps) k = inherited c k.
Proof. intros Hk. unfold read. rewrite decide_False; [done |]. by apply keys_filter. Qed.

Lemma read_filter_in (c : class) (P : string * value → Prop)
    `{!∀ kv, Decision (P kv)} (ps : props) (k : string) :
  (∀ v, P (k, v)) → read c (filter P ps) k = read c ps k.
Proof.
  intros Hk. unfold read. rewrite get_own_filter_in by done.
  destruct (decide (k ∈ ps.*1)) as [Hin|Hin].
  - rewrite decide_True; [done |]. apply list_elem_of_fmap in Hin as ([k0 v] & -> & Hin).
    apply list_elem_of_fmap. exists (k0, v). split; [done |].
    apply list_elem_of_filter. split; [apply Hk | done].
  - rewrite decide_False; [done |]. rewrite list_elem_of_fmap.
    intros (kv & -> & [_ Hkv]%list_elem_of_filter). apply Hin.
    apply list_elem_of_fmap. by exists kv.
Qed.

(** A key with an own value reads it. *)
Lemma read_own (c : class) (ps : props) (k : string) :
  get_own ps k ≠ VUndef → read c ps k = get_own ps k.
Proof.
  intros Hk. unfold read. destruct (decide (k ∈ ps.*1)) as [Hin|Hin]; [done |].
  destruct Hk. induction ps as [|[k' v] ps IH]; [done |]. simpl.
  destruct (decide (k' = k)) as [->|Hne].
  - destruct Hin. simpl. by left.
  - apply IH. intros Hin'. apply Hin. simpl. by right.
Qed.

Lemma strip_false_props (c : class) (ps : props) (params : list value) :
  (strip c false ps params).1 = ps.
Proof.
  induction params as [|p params IH]; [done |]. simpl.
  by destruct (decide (read c ps (key_of p) ≠ VUndef)).
Qed.

Lemma strip_true_props (c : class) (ps : props) (params : list value) :
  (strip c true ps params).1 = filter (λ kv, kv.1 ∉ used_keys c ps params) ps.
Proof.
  revert ps. induction params as [|p params IH]; intros ps.
  - simpl. symmetry. induction ps as [|kv ps IHps]; [done |].
    rewrite filter_cons_True by apply not_elem_of_nil. by f_equal.
  - simpl. unfold used_keys. rewrite fmap_cons, filter_cons.
    destruct (decide (read c ps (key_of p) ≠ VUndef)) as [Hp|Hp]; simpl.
    + rewrite IH, delete_own_filter, list_filter_filter.
      apply list_filter_iff. intros [k v]. simpl.
      rewrite not_elem_of_cons. unfold used_keys.
      rewrite !list_elem_of_filter, <- delete_own_filter.
      destruct (decide (key_of p = k)) as [->|Hne]; [tauto |].
      rewrite (read_delete_ne _ _ _ _ Hne). intuition congruence.
    + apply IH.
Qed.

Lemma strip_false_missing (c : class) (ps : props) (params : list value) :
  (strip c false ps params).2 = filter (unresolved c ps) params.
Proof.
  induction params as [|p params IH]; [done |]. simpl. rewrite filter_cons.
  unfold unresolved at 1.
  destruct (decide (read c ps (key_of p) ≠ VUndef)) as [Hp|Hp];
    destruct (decide (read c ps (key_of p) = VUndef)) as [Hu|Hu]; try done.
  simpl. by rewrite IH.
Qed.

(** The names that [ps0] does not resolve are listed as they come,
    whatever has been deleted on the way from [ps0] to [ps]. *)
Lemma strip_missing_unresolved (c : class) (removeUsed : bool) (ps0 ps : props)
    (params : list value) :
  (∀ k, read c ps0 k = VUndef → read c ps k = VUndef) →
  filter (unresolved c ps0) (strip c removeUsed ps params).2
  = filter (unresolved c ps0) params.
Proof.
  revert ps. induction params as [|p params IH]; intros ps Hps; [done |]. simpl.
  destruct (decide (read c ps (key_of p) ≠ VUndef)) as [Hp|Hp].
  - rewrite (filter_cons_False _ p) by (intros Hl; by apply Hp, Hps).
    apply IH. destruct removeUsed; [|done]. intros k Hk.
    destruct (decide (key_of p = k)) as [<-|Hne].
    + destruct Hp. by apply Hps.
    + rewrite read_delete_ne by done. by apply Hps.
  - simpl. rewrite !filter_cons. rewrite (IH ps Hps). done.
Qed.

Lemma strip_missing_sublist (c : class) (removeUsed : bool) (ps : props)
    (params : list value) :
  (strip c removeUsed ps params).2 `sublist_of` params.
Proof.
  revert ps. induction params as [|p params IH]; intros ps; [done |]. simpl.
  destruct (decide (read c ps (key_of p) ≠ VUndef)).
  - apply sublist_cons, IH.
  - simpl. apply sublist_skip, IH.
Qed.

Lemma strip_missing_nonempty (c : class) (removeUsed : bool) (ps : props)
    (params : list value) (p : value) :
  p ∈ params → unresolved c ps p → (strip c removeUsed ps params).2 ≠ [].
Proof.
  intros Hin Hp Hnil.
  assert (p ∈ filter (unresolved c ps) params) as Hf by (by apply list_elem_of_filter).
  rewrite <- (strip_missing_unresolved c removeUsed ps ps params), Hnil in Hf by done.
  by apply not_elem_of_nil in Hf.
Qed.

(** **** [parseURL] on an object *)

Lemma parseURL_no_rule (data : value) (removeUsed : bool) (st : state) :
  getPlaceholders this (heap st) (Some (fullPath this (heap st))) = None →
  parseURL this data removeUsed st = (st, Ok (new_URL (fullPath this (heap st)))).
Proof. intros Hph. unfold parseURL, bind, get_heap. by rewrite Hph. Qed.

Lemma parseURL_object (l : loc) (c : class) (ps : props) (removeUsed : bool)
    (placeholder : Placeholder) (st : state) :
  not_array c → heap st !! l = Some (Obj c ps) →
  getPlaceholders this (heap st) (Some (fullPath this (heap st))) = Some placeholder →
  let rawPath := fullPath this (heap st) in
  let r := strip c removeUsed ps (params_in placeholder rawPath 0 0 rawPath) in
  let st' := with_heap st (<[l := Obj c r.1]> (heap st)) in
  (r.2 = [] →
     ∃ parsedPath,
       parseURL this (VRef l) removeUsed st = (st', Ok (new_URL parsedPath)))
  ∧ (r.2 ≠ [] →
       parseURL this (VRef l) removeUsed st
       = (logged (LogMissing r.2 (VRef l) rawPath) st',
          Throw (Error "Missing URL parameters"))).
Proof.
  intros Hc Hl Hph. cbv zeta.
  destruct (replaceAll_object placeholder removeUsed (fullPath this (heap st)) l c
              Hc (fullPath this (heap st)) 0 0 [] st ps Hl) as [out Hout].
  cbv zeta in Hout. simpl in Hout.
  assert (∀ A (k : Heap → M A), bind get_heap k st = k (heap st) st) as Hget by done.
  unfold parseURL. rewrite !Hget, Hph. simpl.
  rewrite (bind_Ok _ _ _ _ _ Hout). split.
  - intros ->. by exists out.
  - intros Hne. destruct (strip _ _ _ _).2 as [|p m]; [done |]. reflexivity.
Qed.

End resolution.

(** C2, as stated, fails: the path [/:a/:a] names [a] twice, the bag has
    no [a], and the list that is reported has [a] twice. *)
Lemma parseURL_lists_a_name_twice :
  let this := constructor "pair" "/:a/:a" None None in
  let st := Sample.initial [Obj CObject []] in
  @parseURL (Sample.platform (Sample.response_of "")) this (VRef 0) false st
  = (logged (LogMissing [VStr "a"; VStr "a"] (VRef 0) "/:a/:a") st,
     Throw (Error "Missing URL parameters"))
  ∧ ¬ NoDup [VStr "a"; VStr "a"].
Proof.
  split; [reflexivity |]. rewrite NoDup_cons. intros [Hnotin _].
  apply Hnotin. by left.
Qed.

(** C2, amended.  When the data, an object other than an array, has no
    value, neither of its own nor inherited, under a name that the
    placeholders of the path ask for, [parseURL] throws "Missing URL
    parameters" and makes no URL; the list it reports on the console has
    every such name once for each of its occurrences in the path, in the
    order of the path, and is taken from the names of the path; when
    [removeUsed] is off it has nothing else. *)
Theorem parseURL_missing `{Platform} (this : WebserviceMethodCall) (l : loc)
    (c : class) (ps : props) (removeUsed : bool) (placeholder : Placeholder)
    (st : state) :
  not_array c → heap st !! l = Some (Obj c ps) →
  getPlaceholders this (heap st) (Some (fullPath this (heap st))) = Some placeholder →
  let rawPath := fullPath this (heap st) in
  let params := params_in placeholder rawPath 0 0 rawPath in
  (∃ p, p ∈ params ∧ unresolved c ps p) →
  ∃ (missing : list value) (st' : state),
    parseURL this (VRef l) removeUsed st
    = (st', Throw (Error "Missing URL parameters"))
    ∧ console st' = console st ++ [LogMissing missing (VRef l) rawPath]
    ∧ filter (unresolved c ps) missing = filter (unresolved c ps) params
    ∧ missing `sublist_of` params
    ∧ (removeUsed = false → missing = filter (unresolved c ps) params).
Proof.
  intros Hc Hl Hph rawPath params (p & Hin & Hp).
  destruct (parseURL_object this l c ps removeUsed placeholder st Hc Hl Hph)
    as [_ Hthrow].
  eexists _, _. split; [|split; [|split; [|split]]].
  - apply Hthrow. by eapply strip_missing_nonempty.
  - reflexivity.
  - by apply strip_missing_unresolved.
  - apply strip_missing_sublist.
  - intros ->. apply strip_false_missing.
Qed.

(** [parseURL_missing], at [/docs/{docId}/{rev}] and a bag without [rev]. *)
Lemma parseURL_missing_witness :
  let this := constructor "getRev" "/docs/{docId}/{rev}" None None in
  let st := Sample.initial [Obj CObject [("docId", VNum 7)]] in
  ∃ (missing : list value) (st' : state),
    @parseURL (Sample.platform (Sample.response_of "")) this (VRef 0) true st
    = (st', Throw (Error "Missing URL parameters"))
    ∧ console st' = [LogMissing missing (VRef 0) "/docs/{docId}/{rev}"]
    ∧ filter (@unresolved Sample.inheritance CObject [("docId", VNum 7)]) missing
      = [VStr "rev"]
    ∧ missing `sublist_of` [VStr "docId"; VStr "rev"]
    ∧ (true = false → missing = [VStr "rev"]).
Proof.
  intros this st.
  apply (@parseURL_missing (Sample.platform (Sample.response_of "")) this 0
           CObject [("docId", VNum 7)] true BRACES st).
  - intros n. discriminate.
  - reflexivity.
  - reflexivity.
  - exists (VStr "rev"). split; [|reflexivity].
    apply list_elem_of_In. vm_compute. auto.
Defined.

(** A name that the object inherits a value under is not missing: the
    path [/docs/:toString] and the empty object make a URL. *)
Example parseURL_inherited_name :
  let this := constructor "odd" "/docs/:toString" None None in
  let st := Sample.initial [Obj CObject []] in
  ∃ url, @parseURL (Sample.platform (Sample.response_of "")) this (VRef 0) true st
         = (st, Ok url).
Proof. intros this st. eexists. vm_compute. reflexivity. Qed.

(** C10.  With [removeUsed] on and an object, not an array, that has no
    value under one of the names of the path, [parseURL] throws, and the
    object it leaves behind has lost the keys of the placeholders that did
    resolve, and nothing puts them back: such a name is no key of the
    object any more, so that it reads what the object inherits under it,
    [undefined] where that is nothing; and where the object had a value of
    its own under the name, the object is not what it was.  The other
    keys are as they were. *)
Theorem parseURL_strips_before_throwing `{Platform} (this : WebserviceMethodCall)
    (l : loc) (c : class) (ps : props) (placeholder : Placeholder) (st : state) :
  not_array c → heap st !! l = Some (Obj c ps) →
  getPlaceholders this (heap st) (Some (fullPath this (heap st))) = Some placeholder →
  let rawPath := fullPath this (heap st) in
  let params := params_in placeholder rawPath 0 0 rawPath in
  (∃ p, p ∈ params ∧ unresolved c ps p) →
  ∃ (st' : state) (ps' : props),
    parseURL this (VRef l) true st = (st', Throw (Error "Missing URL parameters"))
    ∧ heap st' !! l = Some (Obj c ps')
    ∧ ps' = filter (λ kv, kv.1 ∉ used_keys c ps params) ps
    ∧ (∀ p, p ∈ params → ¬ unresolved c ps p →
         (key_of p ∉ ps'.*1)
         ∧ Get (heap st') (VRef l) (key_of p) = inherited c (key_of p)
         ∧ (inherited c (key_of p) = VUndef →
              Get (heap st) (VRef l) (key_of p) ≠ VUndef
              ∧ Get (heap st') (VRef l) (key_of p) = VUndef))
    ∧ (∀ p, p ∈ params → get_own ps (key_of p) ≠ VUndef → ps' ≠ ps)
    ∧ (∀ k, k ∉ key_of <$> params →
         Get (heap st') (VRef l) k = Get (heap st) (VRef l) k).
Proof.
  intros Hc Hl Hph. cbv zeta. intros (p & Hin & Hp).
  destruct (parseURL_object this l c ps true placeholder st Hc Hl Hph)
    as [_ Hthrow].
  set (rawPath := fullPath this (heap st)) in *.
  set (params := params_in placeholder rawPath 0 0 rawPath) in *.
  eexists _, (filter (λ kv, kv.1 ∉ used_keys c ps params) ps).
  split; [apply Hthrow; by eapply strip_missing_nonempty |].
  assert (heap (logged (LogMissing (strip c true ps params).2 (VRef l) rawPath)
                  (with_heap st (<[l := Obj c (strip c true ps params).1]> (heap st))))
            !! l
          = Some (Obj c (filter (λ kv, kv.1 ∉ used_keys c ps params) ps))) as Hl'.
  { simpl. rewrite list_lookup_insert_eq by (by eapply lookup_lt_Some).
    by rewrite strip_true_props. }
  split; [exact Hl' |]. split; [reflexivity |].
  assert (∀ k, Get (heap st) (VRef l) k = read c ps k) as Hget.
  { intros k. unfold Get. by rewrite Hl, get_obj_not_array. }
  assert (∀ k, Get (heap (logged (LogMissing (strip c true ps params).2 (VRef l) rawPath)
                  (with_heap st (<[l := Obj c (strip c true ps params).1]> (heap st)))))
                 (VRef l) k
               = read c (filter (λ kv, kv.1 ∉ used_keys c ps params) ps) k) as Hget'.
  { intros k. unfold Get. by rewrite Hl', get_obj_not_array. }
  assert (∀ q, q ∈ params → ¬ unresolved c ps q →
               ∀ v : value, ¬ ((key_of q, v).1 ∉ used_keys c ps params)) as Hused.
  { intros q Hq Hres v Hnot. apply Hnot. unfold used_keys. cbn [fst].
    apply list_elem_of_filter. split; [exact Hres | by apply list_elem_of_fmap_2]. }
  split; [|split].
  - intros q Hq Hres. rewrite Hget, Hget'.
    rewrite (read_filter_out c _ ps (key_of q)) by (by apply Hused).
    split; [apply keys_filter; by apply Hused |]. split; [reflexivity |].
    intros Hinh. split; [exact Hres | exact Hinh].
  - intros q Hq Hown Heq.
    assert (key_of q ∈ ps.*1) as Hkey.
    { clear -Hown. induction ps as [|[k' v] ps IH]; [done |]. simpl in *.
      destruct (decide (k' = key_of q)) as [->|Hne]; [by left | right; by apply IH]. }
    assert (¬ unresolved c ps q) as Hres.
    { unfold unresolved. by rewrite read_own. }
    rewrite <- Heq in Hkey. revert Hkey. apply keys_filter. by apply Hused.
  - intros k Hk. rewrite Hget, Hget'.
    apply read_filter_in. simpl. intros _.
    unfold used_keys. rewrite list_elem_of_filter. tauto.
Qed.

(** [parseURL_strips_before_throwing], at [/docs/{docId}/{rev}] and a bag
    with [docId] and without [rev]. *)
Lemma parseURL_strips_before_throwing_witness :
  let this := constructor "getRev" "/docs/{docId}/{rev}" None None in
  let st := Sample.initial [Obj CObject [("docId", VNum 7); ("extra", VStr "x")]] in
  ∃ st' : state,
    @parseURL (Sample.platform (Sample.response_of "")) this (VRef 0) true st
    = (st', Throw (Error "Missing URL parameters"))
    ∧ heap st' !! 0 = Some (Obj CObject [("extra", VStr "x")])
    ∧ @Get Sample.inheritance (heap st) (VRef 0) "docId" = VNum 7
    ∧ @Get Sample.inheritance (heap st') (VRef 0) "docId" = VUndef
    ∧ @Get Sample.inheritance (heap st') (VRef 0) "extra" = VStr "x".
Proof.
  intros this st.
  destruct (@parseURL_strips_before_throwing (Sample.platform (Sample.response_of ""))
              this 0 CObject [("docId", VNum 7); ("extra", VStr "x")] BRACES st)
    as (st' & ps' & Hthrow & Hl & Hps & Hused & _ & Hother).
  - intros n. discriminate.
  - reflexivity.
  - reflexivity.
  - exists (VStr "rev"). split; [|reflexivity].
    apply list_elem_of_In. vm_compute. auto.
  - exists st'. split; [exact Hthrow |].
    split; [rewrite Hl, Hps; reflexivity |]. split; [reflexivity |].
    split.
    + destruct (Hused (VStr "docId")) as (_ & _ & Hundef).
      * apply list_elem_of_In. vm_compute. auto.
      * intros Hu. vm_compute in Hu. discriminate.
      * exact (proj2 (Hundef eq_refl)).
    + refine (eq_trans (Hother "extra" _) eq_refl).
      intros Hin. apply list_elem_of_In in Hin. vm_compute in Hin.
      destruct Hin as [Hin | [Hin | []]]; discriminate.
Defined.

(** *** Building the request *)

Section request.
Context `{Platform}.
Variable this : WebserviceMethodCall.

(** [buildHeaders] never throws; it leaves the objects, the console and
    the transport as they are, and at most adds one object. *)
Lemma buildHeaders_Headers (localHeaders : value) (st : state) :
  instanceof_Headers (heap st) localHeaders = true →
  buildHeaders this localHeaders st = (st, Ok localHeaders).
Proof. intros Hi. unfold buildHeaders, bind, get_heap. by rewrite Hi. Qed.

Lemma buildHeaders_new (localHeaders : value) (st : state) :
  instanceof_Headers (heap st) localHeaders = false →
  ∃ es, buildHeaders this localHeaders st
        = (with_heap st (heap st ++ [Obj (CHeaders es) []]),
           Ok (VRef (length (heap st)))).
Proof. intros Hi. unfold buildHeaders, bind, get_heap. rewrite Hi. by eexists. Qed.

Lemma buildHeaders_total (localHeaders : value) (st : state) :
  ∃ st1 headers,
    buildHeaders this localHeaders st = (st1, Ok headers)
    ∧ (∀ l o, heap st !! l = Some o → heap st1 !! l = Some o)
    ∧ console st1 = console st
    ∧ dispatched st1 = dispatched st.
Proof.
  destruct (instanceof_Headers (heap st) localHeaders) eqn:Hi.
  - exists st, localHeaders. by rewrite buildHeaders_Headers.
  - destruct (buildHeaders_new localHeaders st Hi) as [es Hes].
    eexists _, _. split; [exact Hes |]. split; [|done].
    intros l o Hl. simpl. by apply lookup_app_l_Some.
Qed.

Lemma Get_preserved (h h1 : Heap) (l : loc) (o : object) (k : string) :
  h !! l = Some o → (∀ l o, h !! l = Some o → h1 !! l = Some o) →
  Get h1 (VRef l) k = get_obj o k.
Proof. intros Hl Hpres. unfold Get. by rewrite (Hpres l o Hl). Qed.

(** The start of [makeRequest] for an object and a known HTTP method. *)
Lemma makeRequest_start (l : loc) (o : object) (methOpts : HttpRules) (st : state) :
  heap st !! l = Some o → httpMethods this !! http this = Some methOpts →
  ∃ st1 headers,
    buildHeaders this (get_obj o "headers") st = (st1, Ok headers)
    ∧ (∀ l o, heap st !! l = Some o → heap st1 !! l = Some o)
    ∧ console st1 = console st
    ∧ dispatched st1 = dispatched st
    ∧ makeRequest this (VRef l) st
      = (let options := VRef l in
         let h := heap st1 in
         let urlData := makeRequest_urlData h options in
         let bodyData := makeRequest_bodyData h methOpts options in
         let queryData := makeRequest_queryData h methOpts options in
         if bool_decide (requestBody methOpts = Some false) && notNil bodyData
         then throw (RangeError ("Request body forbidden for " +:+ http this)) else
         let* url := parseURL this urlData (bool_decide (urlData = options)) in
         let* h := get_heap in
         let reqOpts :=
           getNestedOptions this h "request" (Value VUndef)
             (Literal [("method", VStr (http this)); ("headers", headers)]) in
         let* reqOpts :=
           if notNil bodyData then
             let* body := setupBody this bodyData headers in
             ret (set_own reqOpts "body" body.1)
           else ret reqOpts in
         let* h := get_heap in
         let url :=
           if isObj queryData
           then {| url_path := url_path url;
                   searchParams := makeRequest_query h queryData (searchParams url) |}
           else url in
         let* _ :=
           log (LogMakeRequest url reqOpts methOpts headers urlData bodyData queryData) in
         ret {| req_url := url; req_opts := reqOpts |}) st1.
Proof.
  intros Hl Hmeth.
  destruct (buildHeaders_total (get_obj o "headers") st)
    as (st1 & headers & Hbuild & Hpres & Hconsole & Hdispatched).
  exists st1, headers. repeat (split; [done |]).
  unfold makeRequest. destruct (decide (VRef l = VUndef)); [done |].
  rewrite (bind_Ok _ _ st st (VRef l)) by done. rewrite Hmeth.
  destruct (decide (VRef l = VNull)); [done |].
  rewrite (bind_Ok _ _ st st (heap st)) by done.
  unfold Get at 1. rewrite Hl.
  rewrite (bind_Ok _ _ _ _ _ Hbuild).
  by rewrite (bind_Ok _ _ st1 st1 (heap st1)) by done.
Qed.

Lemma resolution_errors_only_ret {A} (a : A) : resolution_errors_only (ret a).
Proof. intros st st' e. unfold ret. by intros [=]. Qed.

Lemma resolution_errors_only_bind {A B} (m : M A) (k : A → M B) :
  resolution_errors_only m → (∀ a, resolution_errors_only (k a)) →
  resolution_errors_only (bind m k).
Proof.
  intros Hm Hk st st' e. unfold bind.
  destruct (m st) as [st1 [a|e1]] eqn:Hmst.
  - apply Hk.
  - intros [= <- <-]. by eapply Hm.
Qed.

Lemma resolution_errors_only_delete_property (data : value) (key : string) :
  resolution_errors_only (delete_property data key).
Proof.
  intros st st' e. unfold delete_property, bind, get_heap, store, ret, throw.
  destruct data; try (by intros [=]).
  destruct (heap st !! l) as [o|]; [|by intros [=]].
  destruct (cls o); try (by intros [=]).
  destruct (decide (key = "length")); [|by intros [=]].
  intros [= <- <-]. by right.
Qed.

Lemma resolution_errors_only_replaceAll placeholder data removeUsed input s :
  ∀ skip pos missing,
    resolution_errors_only
      (replaceAll placeholder data removeUsed input skip pos s missing).
Proof.
  induction s as [|ch s IH]; intros skip pos missing; cbn [replaceAll].
  - apply resolution_errors_only_ret.
  - destruct skip; [|apply IH].
    destruct (exec_at (pattern placeholder) (String ch s)).
    + apply resolution_errors_only_bind.
      * unfold parseURL_replacer.
        apply resolution_errors_only_bind; [by intros ??? [=] |].
        intros h. destruct (decide _); [|apply resolution_errors_only_ret].
        apply resolution_errors_only_bind;
          [|intros; apply resolution_errors_only_ret].
        destruct removeUsed;
          [apply resolution_errors_only_delete_property
          |apply resolution_errors_only_ret].
      * intros [missing' value].
        apply resolution_errors_only_bind; [by intros ??? [=] |].
        intros h. apply resolution_errors_only_bind; [apply IH |].
        intros [? ?]. apply resolution_errors_only_ret.
    + apply resolution_errors_only_bind; [apply IH |].
      intros [? ?]. apply resolution_errors_only_ret.
Qed.

Lemma resolution_errors_only_parseURL (data : value) (removeUsed : bool) :
  resolution_errors_only (parseURL this data removeUsed).
Proof.
  unfold parseURL. apply resolution_errors_only_bind; [by intros ??? [=] |].
  intros h.
  destruct (getPlaceholders this h _); [|apply resolution_errors_only_ret].
  destruct (negb (isObj data)); [apply resolution_errors_only_ret |].
  apply resolution_errors_only_bind; [apply resolution_errors_only_replaceAll |].
  intros [missing parsedPath]. destruct (0 <? length missing).
  - apply resolution_errors_only_bind; [by intros ??? [=] |].
    intros _ st st' e. unfold throw. intros [= <- <-]. by left.
  - apply resolution_errors_only_ret.
Qed.

End request.

(** C8.  For a method whose rule forbids a request body: with a body
    that is neither [undefined] nor [null] in the options, [makeRequest]
    throws a [RangeError], so that [send] fails with nothing handed to the
    transport; with no such body the options are not taken as the body,
    and [makeRequest] can only fail where the URL is resolved, never with
    that [RangeError]. *)
Theorem makeRequest_body_forbidden `{Platform} (this : WebserviceMethodCall)
    (l : loc) (o : object) (methOpts : HttpRules) (st : state) :
  heap st !! l = Some o →
  httpMethods this !! http this = Some methOpts →
  requestBody methOpts = Some false →
  (notNil (get_obj o "body") = true →
     ∃ st',
       makeRequest this (VRef l) st
       = (st', Throw (RangeError ("Request body forbidden for " +:+ http this)))
       ∧ send this (VRef l) st
         = (st', Throw (RangeError ("Request body forbidden for " +:+ http this)))
       ∧ dispatched st' = dispatched st)
  ∧ (notNil (get_obj o "body") = false →
       makeRequest_bodyData (heap st) methOpts (VRef l) = VNull
       ∧ ∀ st' e, makeRequest this (VRef l) st = (st', Throw e) →
                  resolution_error e ∧ ∀ msg, e ≠ RangeError msg).
Proof.
  intros Hl Hmeth Hforbidden.
  destruct (makeRequest_start this l o methOpts st Hl Hmeth)
    as (st1 & headers & _ & Hpres & _ & Hdispatched & Hmake).
  cbv zeta in Hmake. unfold makeRequest_bodyData in Hmake.
  rewrite (Get_preserved _ _ _ _ _ Hl Hpres), Hforbidden in Hmake.
  rewrite bool_decide_eq_true_2 in Hmake by done. split.
  - intros Hbody. rewrite Hbody in Hmake. simpl in Hmake.
    rewrite Hbody in Hmake. simpl in Hmake. exists st1.
    split; [exact Hmake |]. split; [|exact Hdispatched].
    unfold send. by rewrite (bind_Throw _ _ _ _ _ Hmake).
  - intros Hbody. rewrite Hbody in Hmake. simpl in Hmake. split.
    + unfold makeRequest_bodyData, Get. by rewrite Hl, Hbody, Hforbidden.
    + intros st' e. rewrite Hmake. intros Hthrow.
      assert (resolution_error e) as He.
      { revert Hthrow.
        match goal with
        | |- ?m st1 = _ → _ =>
            enough (resolution_errors_only m) as Honly by exact (Honly st1 st' e)
        end.
        apply resolution_errors_only_bind;
          [apply resolution_errors_only_parseURL |].
        intros url. apply resolution_errors_only_bind; [by intros ??? [=] |].
        intros h. apply resolution_errors_only_bind;
          [apply resolution_errors_only_ret |].
        intros reqOpts. apply resolution_errors_only_bind; [by intros ??? [=] |].
        intros h'. apply resolution_errors_only_bind; [by intros ??? [=] |].
        intros _. apply resolution_errors_only_ret. }
      split; [exact He |]. intros msg. by destruct He as [-> | ->].
Qed.

(** [makeRequest_body_forbidden], at a [GET] with and without a body. *)
Lemma makeRequest_body_forbidden_witness :
  let this := constructor "listDocs" "/docs/" None None in
  let P := Sample.platform (Sample.response_of "application/json") in
  (∃ st',
     @makeRequest P this (VRef 0) (Sample.initial [Obj CObject [("body", VStr "x")]])
     = (st', Throw (RangeError "Request body forbidden for GET"))
     ∧ @send P this (VRef 0) (Sample.initial [Obj CObject [("body", VStr "x")]])
       = (st', Throw (RangeError "Request body forbidden for GET"))
     ∧ dispatched st' = [])
  ∧ (makeRequest_bodyData [Obj CObject [("author", VStr "me")]] GET (VRef 0) = VNull
     ∧ ∀ st' e,
         @makeRequest P this (VRef 0) (Sample.initial [Obj CObject [("author", VStr "me")]])
         = (st', Throw e) →
         resolution_error e ∧ ∀ msg, e ≠ RangeError msg).
Proof.
  intros this P. split.
  - apply (@makeRequest_body_forbidden P this 0 (Obj CObject [("body", VStr "x")]) GET
             (Sample.initial [Obj CObject [("body", VStr "x")]]));
      reflexivity.
  - apply (@makeRequest_body_forbidden P this 0 (Obj CObject [("author", VStr "me")]) GET
             (Sample.initial [Obj CObject [("author", VStr "me")]]));
      reflexivity.
Defined.

(** *** Headers and the body *)

Lemma keeps_state_ret {A} (a : A) : keeps_state (ret a).
Proof. done. Qed.

Lemma keeps_state_throw {A} (e : error) : keeps_state (@throw A e).
Proof. done. Qed.

Lemma keeps_state_lift {A} (r : result A) : keeps_state (lift r).
Proof. done. Qed.

Lemma keeps_state_bind {A B} (m : M A) (k : A → M B) :
  keeps_state m → (∀ a, keeps_state (k a)) → keeps_state (bind m k).
Proof.
  intros Hm Hk st. unfold bind. specialize (Hm st).
  destruct (m st) as [st1 [a|e]]; simpl in Hm; subst st1; [apply Hk | done].
Qed.

Lemma setupBody_serialize_keeps_state `{Platform} (this : WebserviceMethodCall)
    (data contentType : value) :
  keeps_state (setupBody_serialize this data contentType).
Proof.
  apply keeps_state_bind; [done |]. intros h.
  repeat case_match;
    auto using @keeps_state_ret, @keeps_state_lift, @keeps_state_throw.
Qed.

(** The two ways through [setupBody].  With no [Content-Type] in the
    headers and a body, it asks [getMimeType], which throws, and
    [headers.set] is not reached; otherwise it goes on to the
    serialization with the [Content-Type] of the headers. *)
Lemma setupBody_steps `{Platform} (this : WebserviceMethodCall)
    (data headers : value) (st st1 : state) (hd : value) :
  buildHeaders this headers st = (st1, Ok hd) →
  let ct0 := headers_get (heap st1) hd CT in
  (negb (truthy ct0) && notNil data = true →
     ∃ st2 e,
       setupBody this data headers st = (st2, Throw e)
       ∧ getMimeType data (getOption this "jsonObjects" (VBool true)) st1
         = (st2, Throw e))
  ∧ (negb (truthy ct0) && notNil data = false →
       setupBody this data headers st
       = (let* d := setupBody_serialize this data ct0 in ret (d, hd)) st1).
Proof.
  intros Hbuild ct0. unfold setupBody.
  rewrite (bind_Ok _ _ _ _ _ Hbuild).
  rewrite (bind_Ok _ _ st1 st1 (heap st1)) by done. fold ct0.
  split; intros Hsniff; rewrite Hsniff.
  - destruct (UtilsFacts.getMimeType_throws data
                (getOption this "jsonObjects" (VBool true)) st1)
      as (st2 & e & Hmime & _).
    exists st2, e. split; [|exact Hmime].
    erewrite bind_Throw; [done |]. by rewrite (bind_Throw _ _ _ _ _ Hmime).
  - reflexivity.
Qed.

(** C7.  A [Headers] instance passed at call time is what [buildHeaders]
    returns, as it is: no [contentType] or [acceptType] option and no
    configured header is merged into it.  [setupBody] works on that same
    instance, returns it when it returns, and in no case changes it or
    any other object: when the instance has a [Content-Type], or there
    is no body, nothing is set on it; when it has none and there is a
    body, [setupBody] asks [getMimeType] for the type, that call throws,
    and the [headers.set] after it is not reached, so that no type found
    by sniffing the body is added. *)
Theorem Headers_instance_at_call_time `{Platform} (this : WebserviceMethodCall)
    (l : loc) (es : entries) (ps : props) (data : value) (st : state) :
  heap st !! l = Some (Obj (CHeaders es) ps) →
  let contentType := headers_get (heap st) (VRef l) CT in
  buildHeaders this (VRef l) st = (st, Ok (VRef l))
  ∧ (∀ st' data' headers,
       setupBody this data (VRef l) st = (st', Ok (data', headers)) →
       headers = VRef l ∧ st' = st)
  ∧ heap (setupBody this data (VRef l) st).1 = heap st
  ∧ (truthy contentType = true ∨ notNil data = false →
       (setupBody this data (VRef l) st).1 = st)
  ∧ (truthy contentType = false → notNil data = true →
       ∃ st' e,
         setupBody this data (VRef l) st = (st', Throw e)
         ∧ (e = ReferenceError "MIME is not defined" ∨ ∃ msg, e = TypeError msg)).
Proof.
  intros Hl contentType.
  assert (buildHeaders this (VRef l) st = (st, Ok (VRef l))) as Hbuild.
  { apply buildHeaders_Headers. unfold instanceof_Headers, class_of.
    by rewrite Hl. }
  split; [exact Hbuild |].
  destruct (setupBody_steps this data (VRef l) st st (VRef l) Hbuild)
    as [Hsniff Hserialize].
  fold contentType in Hsniff, Hserialize.
  pose proof (setupBody_serialize_keeps_state this data contentType st) as Hkeep.
  destruct (negb (truthy contentType) && notNil data) eqn:Hcase.
  - destruct (Hsniff eq_refl) as (st2 & e & -> & Hmime).
    destruct (UtilsFacts.getMimeType_throws data
                (getOption this "jsonObjects" (VBool true)) st)
      as (st2' & e' & Hmime' & Hheap & _ & He).
    rewrite Hmime in Hmime'. injection Hmime' as <- <-.
    apply andb_true_iff in Hcase as [Hct Hdata]. apply negb_true_iff in Hct.
    split; [by intros ??? [=] |]. split; [exact Hheap |]. split.
    + intros [Ht|Hd]; congruence.
    + intros _ _. exists st2, e. split; [done |].
      destruct He as [[-> _] | [Hmsg _]]; [by left | by right].
  - rewrite (Hserialize eq_refl). unfold bind.
    destruct (setupBody_serialize this data contentType st) as [st2 [d|e]];
      simpl in Hkeep; subst st2.
    + split; [by intros ??? [= <- _ <-] |]. split; [done |]. split; [done |].
      intros Ht Hd. by rewrite Ht, Hd in Hcase.
    + split; [by intros ??? [=] |]. split; [done |]. split; [done |].
      intros Ht Hd. by rewrite Ht, Hd in Hcase.
Qed.

(** [Headers_instance_at_call_time], at an empty instance and the body
    [hello]. *)
Lemma Headers_instance_at_call_time_witness :
  let this := constructor "newDoc" "/docs/" (Some "POST") None in
  let P := Sample.platform (Sample.response_of "") in
  let st := Sample.initial [Obj (CHeaders []) []] in
  @buildHeaders this (VRef 0) st = (st, Ok (VRef 0))
  ∧ heap (@setupBody P this (VStr "hello") (VRef 0) st).1 = [Obj (CHeaders []) []]
  ∧ ∃ st' e,
      @setupBody P this (VStr "hello") (VRef 0) st = (st', Throw e)
      ∧ (e = ReferenceError "MIME is not defined" ∨ ∃ msg, e = TypeError msg).
Proof.
  intros this P st.
  destruct (@Headers_instance_at_call_time P this 0 [] [] (VStr "hello") st eq_refl)
    as (Hbuild & _ & Hheap & _ & Hsniff).
  split; [exact Hbuild |]. split; [exact Hheap |].
  exact (Hsniff eq_refl eq_refl).
Defined.

(** The same at [makeRequest]: the caller's instance is empty, the body
    is the string [hello], and the call fails where the type of the body
    is asked for, with the instance as it was. *)
Example makeRequest_Headers_instance_body :
  let this := constructor "newDoc" "/docs/" (Some "POST") None in
  let st := Sample.initial
              [Obj CObject [("headers", VRef 1); ("body", VStr "hello")];
               Obj (CHeaders []) []] in
  @makeRequest (Sample.platform (Sample.response_of "")) this (VRef 0) st
  = (st, Throw (ReferenceError "MIME is not defined")).
Proof. vm_compute. reflexivity. Qed.

(** With a [Content-Type] in the caller's instance the request is made,
    with that instance for its headers and the instance as it was. *)
Example makeRequest_Headers_instance_typed_body :
  let this := constructor "newDoc" "/docs/" (Some "POST") None in
  let st := Sample.initial
              [Obj CObject [("headers", VRef 1); ("body", VStr "hello")];
               Obj (CHeaders [("content-type", "text/plain")]) []] in
  ∃ st' request,
    @makeRequest (Sample.platform (Sample.response_of "")) this (VRef 0) st
    = (st', Ok request)
    ∧ get_own (req_opts request) "headers" = VRef 1
    ∧ get_own (req_opts request) "body" = VStr "hello"
    ∧ heap st' = heap st.
Proof.
  intros this st. eexists _, _. split; [vm_compute; reflexivity |].
  by repeat split.
Qed.

(** *** The argument bag *)

Section bag.
Context `{Platform}.
Variable this : WebserviceMethodCall.




End bag.



(** The same call with [PUT] and no [Content-Type]: the stripped bag is
    the body, its type is asked of [getMimeType], and the call fails
    there; the used key has gone from the bag by then. *)
Example makeRequest_put_bag :
  let this := constructor "saveDoc" "/docs/{docId}" (Some "put") None in
  let P := Sample.platform (Sample.response_of "application/json") in
  let st := Sample.initial [Obj CObject [("docId", VStr "9"); ("title", VStr "hi")]] in
  ∃ st',
    @makeRequest P this (VRef 0) st
    = (st', Throw (ReferenceError "MIME is not defined"))
    ∧ heap st' !! 0 = Some (Obj CObject [("title", VStr "hi")])
    ∧ heap st' !! 1 = Some (Obj (CHeaders []) []).
Proof. intros this P st. eexists. split; [vm_compute; reflexivity |]. by split. Qed.

(** With the [contentType] option set to the JSON type, the stripped bag
    is the JSON body, and there is no query. *)
Example makeRequest_put_bag_JSON :
  let this := constructor "saveDoc" "/docs/{docId}" (Some "put")
                (Some [("contentType", VStr "application/json")]) in
  let P := Sample.platform (Sample.response_of "application/json") in
  let st := Sample.initial [Obj CObject [("docId", VStr "9"); ("title", VStr "hi")]] in
  ∃ st',
    @makeRequest P this (VRef 0) st
    = (st', Ok {| req_url := {| url_path := "/docs/9"; searchParams := [] |};
                  req_opts :=
                    [("method", VStr "PUT"); ("headers", VRef 1);
                     ("body",
                      VStr ("{" +:+ Sample.quote "title" +:+ ":" +:+ Sample.quote "hi"
                            +:+ "}"))] |})
    ∧ heap st' !! 0 = Some (Obj CObject [("title", VStr "hi")])
    ∧ heap st' !! 1 = Some (Obj (CHeaders [("content-type", "application/json")]) []).
Proof. intros this P st. eexists. split; [vm_compute; reflexivity |]. by split. Qed.

(** C3: the [removePlaceholdersFromData] option is set to [false], and
    [makeRequest] removes the used key [docId] from the bag all the same:
    it passes [urlData === options] to [parseURL] and never reads the
    option. *)
Theorem makeRequest_ignores_removePlaceholdersFromData :
  let this := constructor "getDoc" "/docs/{docId}" None
                (Some [("removePlaceholdersFromData", VBool false)]) in
  let P := Sample.platform (Sample.response_of "application/json") in
  let st := Sample.initial [Obj CObject [("docId", VStr "123"); ("extra", VStr "x")]] in
  removePlaceholdersFromData this = VBool false
  ∧ ∃ st',
      @makeRequest P this (VRef 0) st
      = (st', Ok {| req_url := {| url_path := "/docs/123";
                                  searchParams := [("extra", "x")] |};
                    req_opts := [("method", VStr "GET"); ("headers", VRef 1)] |})
      ∧ heap st' !! 0 = Some (Obj CObject [("extra", VStr "x")]).
Proof.
  intros this P st. split; [reflexivity |].
  eexists. split; [vm_compute; reflexivity |]. reflexivity.
Qed.

(** *** Decoding the response *)

(** The XHTML toggle alone does not decode: the option is [true], the
    response is of the XHTML type, and [send] gives back the response as
    it came, because neither the XML nor the HTML toggle is on. *)
Example send_XHTML_needs_XML_or_HTML :
  let this := constructor "page" "/page" None
                (Some [("autoDecodeXHTML", VBool true)]) in
  let response := Sample.response_of MIME.XHTML in
  truthy (resolved_XHTML this) = true
  ∧ truthy (autoDecodeHTML this) = false
  ∧ ∃ st', @send (Sample.platform response) this VUndef (Sample.initial [])
           = (st', Ok (raw response)).
Proof.
  intros this response. split; [reflexivity |]. split; [reflexivity |].
  eexists. vm_compute. reflexivity.
Qed.

Lemma truthy_send_doXHTML (this : WebserviceMethodCall) :
  truthy (send_doXHTML this (autoDecodeXML this) (autoDecodeHTML this))
  = (truthy (autoDecodeXML this) || truthy (autoDecodeHTML this))
    && truthy (resolved_XHTML this).
Proof.
  unfold send_doXHTML, resolved_XHTML.
  destruct (truthy (autoDecodeXML this) || truthy (autoDecodeHTML this)); [|done].
  by destruct (typeof_boolean (autoDecodeXHTML this)).
Qed.

(** C5.  When the request is made and the transport answers, [send]
    hands the request to the transport once and resolves as follows.  A
    response of the XHTML type is decoded only when the XHTML toggle, the
    HTML toggle standing in for it when it is not set to a boolean, is
    on, and it is then decoded as HTML when the HTML toggle is on and as
    XML when not; to be exact, it is decoded when, besides, the XML or the
    HTML toggle is on.  A response without a [Content-Type], or with one
    that no rule takes, is given back as it came. *)
Theorem send_decoding `{Platform} (this : WebserviceMethodCall) (options : value)
    (st st1 : state) (request : Request) (response : Response) :
  makeRequest this options st = (st1, Ok request) →
  fetch (heap st1) request = Ok response →
  let ctype := headers_lookup (resp_headers response) (toLowerCase CT) in
  let doJSON := truthy (autoDecodeJSON this) in
  let doXML := truthy (autoDecodeXML this) in
  let doHTML := truthy (autoDecodeHTML this) in
  let doXHTML := (doXML || doHTML) && truthy (resolved_XHTML this) in
  let decoded :=
    if doHTML then parseHTML response (parseHTMLOpts this (heap st1))
    else parseXML response
           (set_own (parseXMLOpts this (heap st1)) "type" (VStr MIME.XHTML)) in
  ∃ data,
    send this options st = (with_dispatched st1 request, Ok data)
    ∧ (ctype = Some MIME.XHTML →
         (data ≠ raw response → truthy (resolved_XHTML this) = true)
         ∧ (data ≠ raw response → data = decoded)
         ∧ data = if doXHTML then decoded else raw response)
    ∧ (ctype = None → data = raw response)
    ∧ (∀ c, ctype = Some c →
         ¬ (doJSON = true ∧ c = MIME.JSON) → ¬ (doXML = true ∧ c = MIME.XML) →
         ¬ (doHTML = true ∧ c = MIME.HTML) → ¬ (doXHTML = true ∧ c = MIME.XHTML) →
         data = raw response).
Proof.
  intros Hmake Hfetch ctype doJSON doXML doHTML doXHTML decoded.
  eexists. split.
  { unfold send. rewrite (bind_Ok _ _ _ _ _ Hmake).
    unfold bind, dispatch, get_heap, lift. simpl. rewrite Hfetch. reflexivity. }
  unfold send_decode. fold ctype. rewrite truthy_send_doXHTML.
  fold doJSON doXML doHTML doXHTML. split; [|split].
  - intros ->.
    rewrite (bool_decide_eq_false_2 (MIME.XHTML = MIME.JSON)) by done.
    rewrite (bool_decide_eq_false_2 (MIME.XHTML = MIME.XML)) by done.
    rewrite (bool_decide_eq_false_2 (MIME.XHTML = MIME.HTML)) by done.
    rewrite (bool_decide_eq_true_2 (MIME.XHTML = MIME.XHTML)) by done.
    rewrite !andb_false_r, andb_true_r. fold decoded.
    split; [|split; [|done]].
    + intros Hdecoded. unfold doXHTML in *.
      destruct (doXML || doHTML); [|done].
      by destruct (truthy (resolved_XHTML this)).
    + intros Hdecoded. by destruct doXHTML.
  - by intros ->.
  - intros c -> HJ HX HH HXH.
    destruct (doJSON && bool_decide (c = MIME.JSON)) eqn:EJ.
    { apply andb_true_iff in EJ as [? ?%bool_decide_eq_true]. by destruct HJ. }
    destruct (doXML && bool_decide (c = MIME.XML)) eqn:EX.
    { apply andb_true_iff in EX as [? ?%bool_decide_eq_true]. by destruct HX. }
    destruct (doHTML && bool_decide (c = MIME.HTML)) eqn:EH.
    { apply andb_true_iff in EH as [? ?%bool_decide_eq_true]. by destruct HH. }
    destruct (doXHTML && bool_decide (c = MIME.XHTML)) eqn:EXH.
    { apply andb_true_iff in EXH as [? ?%bool_decide_eq_true]. by destruct HXH. }
    reflexivity.
Qed.

(** [send_decoding], at an XHTML response with the HTML toggle on. *)
Lemma send_decoding_witness :
  let this := constructor "page" "/page" None
                (Some [("autoDecodeHTML", VBool true)]) in
  let response := Sample.response_of MIME.XHTML in
  ∃ st', @send (Sample.platform response) this VUndef (Sample.initial [])
         = (st', Ok (parseHTML response [])).
Proof.
  intros this response.
  destruct (@send_decoding (Sample.platform response) this VUndef (Sample.initial [])
              _ _ response eq_refl eq_refl) as (data & Hsend & HXHTML & _).
  destruct (HXHTML eq_refl) as (_ & _ & Hdata).
  rewrite Hdata in Hsend. eexists. exact Hsend.
Defined.

(** *** Registration *)

(** C9, as stated, fails: a second [setWS] on a method call that has its
    [ws] set is no error, and the back-reference changes. *)
Lemma setWS_again_replaces_ws :
  let this := constructor "getDoc" "/docs/{docId}" None None in
  ∃ this1 this2,
    setWS this (AWebservice (Sample.service "first")) = Ok this1
    ∧ ws this1 = Some (Sample.service "first")
    ∧ setWS this1 (AWebservice (Sample.service "second")) = Ok this2
    ∧ ws this2 = Some (Sample.service "second")
    ∧ ws this2 ≠ ws this1.
Proof.
  simpl. eexists _, _. repeat split. simpl. intros [=].
Qed.

(** C9, amended.  [ws] is [null] from the constructor on.  [setWS] with a
    [Webservice] instance sets [ws] to it, whatever [ws] was before, and
    touches nothing else; with any other value it is a [TypeError]. *)
Theorem setWS_sets_ws (this : WebserviceMethodCall) :
  (∀ name urlPath httpMethod options,
     ws (constructor name urlPath httpMethod options) = None)
  ∧ (∀ w : Webservice,
       setWS this (AWebservice w)
       = Ok {| name := name this; http := http this; path := path this;
               options := options this; ws := Some w |})
  ∧ (∀ v : value,
       setWS this (AValue v) = Throw (TypeError "Invalid Webservice instance")).
Proof. repeat split. Qed.

(** *** Query composition *)

Lemma filter_same_delete (q : entries) (k : string) :
  filter (λ kv, kv.1 = k) (query_delete q k) = [].
Proof.
  unfold query_delete. induction q as [|[k' v'] q IH]; [done |].
  rewrite filter_cons. simpl. destruct (decide (k' ≠ k)) as [Hne|Heq].
  - rewrite filter_cons. simpl. by destruct (decide (k' = k)).
  - done.
Qed.

Lemma filter_other_delete (q : entries) (k : string) :
  filter (λ kv, kv.1 ≠ k) (query_delete q k) = filter (λ kv, kv.1 ≠ k) q.
Proof.
  unfold query_delete. induction q as [|[k' v'] q IH]; [done |].
  rewrite !filter_cons. simpl. destruct (decide (k' ≠ k)) as [Hne|Heq]; [|done].
  rewrite filter_cons. simpl. destruct (decide (k' ≠ k)); [|done]. by rewrite IH.
Qed.

Lemma query_set_same (q : entries) (k v : string) :
  filter (λ kv, kv.1 = k) (query_set q k v) = [(k, v)].
Proof.
  induction q as [|[k' v'] q IH]; simpl.
  - rewrite filter_cons. simpl. by destruct (decide (k = k)).
  - destruct (decide (k' = k)) as [->|Hne].
    + rewrite filter_cons. simpl. destruct (decide (k = k)); [|done].
      by rewrite filter_same_delete.
    + rewrite filter_cons. simpl. by destruct (decide (k' = k)).
Qed.

Lemma query_set_others (q : entries) (k v : string) :
  filter (λ kv, kv.1 ≠ k) (query_set q k v) = filter (λ kv, kv.1 ≠ k) q.
Proof.
  induction q as [|[k' v'] q IH]; simpl.
  - rewrite filter_cons. simpl. by destruct (decide (k ≠ k)).
  - destruct (decide (k' = k)) as [->|Hne].
    + rewrite !filter_cons. simpl. destruct (decide (k ≠ k)); [done |].
      apply filter_other_delete.
    + rewrite !filter_cons. simpl. destruct (decide (k' ≠ k)); [|done].
      by rewrite IH.
Qed.

(** C6.  The keys of the query source are visited in enumeration order.
    At a key, an array appends one entry per element, in the order of the
    elements; [null] leaves no entry of the key; any other value leaves
    exactly one entry of the key, the value as a string; and in the last
    two cases the entries of other keys stay as they are.  The object
    [{tags:['a','b'], removed:null, mode:2}] on an empty query gives
    [tags=a], [tags=b], [mode=2]. *)
Theorem makeRequest_query_composition `{Platform} :
  (∀ (h : Heap) (queryData : value) (query : entries),
     makeRequest_query h queryData query
     = foldl (makeRequest_query_step h queryData) query (keys_in h queryData))
  ∧ (∀ (h : Heap) (queryData : value) (query : entries) (key : string),
       let val := Get h queryData key in
       let query' := makeRequest_query_step h queryData query key in
       (isArray h val = true →
          query' = query ++ ((λ subval, (key, ToString h subval)) <$> elements_of h val))
       ∧ (isArray h val = false → val = VNull →
            filter (λ kv, kv.1 = key) query' = []
            ∧ filter (λ kv, kv.1 ≠ key) query' = filter (λ kv, kv.1 ≠ key) query)
       ∧ (isArray h val = false → val ≠ VNull →
            filter (λ kv, kv.1 = key) query' = [(key, ToString h val)]
            ∧ filter (λ kv, kv.1 ≠ key) query' = filter (λ kv, kv.1 ≠ key) query))
  ∧ (let h := [Obj CObject [("tags", VRef 1); ("removed", VNull); ("mode", VNum 2)];
               Obj (CArray 2) [("0", VStr "a"); ("1", VStr "b")]] in
     makeRequest_query h (VRef 0) [] = [("tags", "a"); ("tags", "b"); ("mode", "2")]).
Proof.
  split; [done |]. split; [|reflexivity].
  intros h queryData query key val query'. subst query'.
  unfold makeRequest_query_step. fold val. split; [|split].
  - intros ->. generalize (elements_of h val). intros es. revert query.
    induction es as [|e es IH]; intros query; simpl.
    + by rewrite app_nil_r.
    + rewrite IH. unfold query_append. by rewrite <- app_assoc.
  - intros -> Hnull. destruct (decide (val = VNull)); [|done]. split.
    + apply filter_same_delete.
    + apply filter_other_delete.
  - intros -> Hnull. destruct (decide (val = VNull)); [done |]. split.
    + apply query_set_same.
    + apply query_set_others.
Qed.

(** [makeRequest_query_composition], at the three kinds of value. *)
Lemma makeRequest_query_composition_witness :
  let P := Sample.platform (Sample.response_of "") in
  let h := [Obj CObject [("tags", VRef 1); ("removed", VNull); ("mode", VNum 2)];
            Obj (CArray 2) [("0", VStr "a"); ("1", VStr "b")]] in
  @makeRequest_query_step P h (VRef 0) [("mode", "1")] "tags"
  = [("mode", "1"); ("tags", "a"); ("tags", "b")]
  ∧ filter (λ kv, kv.1 = "removed")
      (@makeRequest_query_step P h (VRef 0) [("removed", "x")] "removed") = []
  ∧ filter (λ kv, kv.1 = "mode")
      (@makeRequest_query_step P h (VRef 0) [("mode", "1"); ("mode", "3")] "mode")
    = [("mode", "2")].
Proof.
  intros P h.
  destruct (proj1 (proj2 (@makeRequest_query_composition P)) h (VRef 0)
              [("mode", "1")] "tags") as (Harray & _ & _).
  destruct (proj1 (proj2 (@makeRequest_query_composition P)) h (VRef 0)
              [("removed", "x")] "removed") as (_ & Hnull & _).
  destruct (proj1 (proj2 (@makeRequest_query_composition P)) h (VRef 0)
              [("mode", "1"); ("mode", "3")] "mode") as (_ & _ & Hother).
  split; [|split].
  - apply Harray. reflexivity.
  - apply Hnull; reflexivity.
  - apply Hother; [reflexivity | discriminate].
Defined.

End MethodCallFacts.

(** ** What a request leaves alone *)

Module FrameFacts.
Import Js Defs Eff Utils MethodCall Spec UtilsFacts MethodCallFacts.

Section frame.
Context `{Platform}.
Variable this : WebserviceMethodCall.
Variable exempt : loc → object → Prop.
Variable st0 : state.

Lemma within_refl : within exempt st0 st0.
Proof. repeat split; auto. Qed.

Lemma respects_ret {A} (a : A) : respects exempt st0 (ret a).
Proof. by intros st. Qed.

Lemma respects_throw {A} (e : error) : respects exempt st0 (@throw A e).
Proof. by intros st. Qed.

Lemma respects_lift {A} (r : result A) : respects exempt st0 (lift r).
Proof. by intros st. Qed.

Lemma respects_get_heap : respects exempt st0 get_heap.
Proof. by intros st. Qed.

Lemma respects_log (e : console_entry) : respects exempt st0 (log e).
Proof.
  intros st (Hheap & Hdis & Hcon & Hlen). repeat split; simpl; auto.
  by apply prefix_app_r.
Qed.

Lemma respects_alloc (o : object) : respects exempt st0 (alloc o).
Proof.
  intros st (Hheap & Hdis & Hcon & Hlen). repeat split; simpl; auto.
  - intros l o' Hl. destruct (Hheap l o' Hl) as [?|Hl']; [by left | right].
    by apply lookup_app_l_Some.
  - rewrite length_app. lia.
Qed.

Lemma respects_store (l : loc) (o : object) :
  (∀ o0, heap st0 !! l = Some o0 → exempt l o0) →
  respects exempt st0 (store l o).
Proof.
  intros Hl st (Hheap & Hdis & Hcon & Hlen). repeat split; simpl; auto.
  - intros l' o' Hl'. destruct (decide (l' = l)) as [->|Hne]; [left; auto |].
    rewrite list_lookup_insert_ne by done. auto.
  - by rewrite length_insert.
Qed.

(** The continuation may rely on what the first part returned, and on
    the state it was run in. *)
Lemma respects_bind_from {A B} (m : M A) (k : A → M B) (st : state) :
  within exempt st0 st →
  within exempt st0 (m st).1 →
  (∀ a, m st = ((m st).1, Ok a) → within exempt st0 (k a (m st).1).1) →
  within exempt st0 (bind m k st).1.
Proof.
  intros Hst Hm Hk. unfold bind. destruct (m st) as [st' [a|e]] eqn:Hr; simpl in *.
  - by apply Hk.
  - done.
Qed.

Lemma respects_bind {A B} (m : M A) (k : A → M B) :
  respects exempt st0 m → (∀ a, respects exempt st0 (k a)) →
  respects exempt st0 (bind m k).
Proof.
  intros Hm Hk st Hst. apply respects_bind_from; auto.
  intros a _. by apply Hk, Hm.
Qed.

Hypothesis exempt_Headers : ∀ l o, is_Headers o → exempt l o.

Lemma respects_Headers_set (headers : value) (name v : string) :
  respects exempt st0 (Headers_set headers name v).
Proof.
  intros st Hst. unfold Headers_set, bind, get_heap.
  destruct headers as [| | | | |l|]; try done.
  destruct (heap st !! l) as [[[] ps]|] eqn:Hl; try done.
  apply respects_store; [|done]. intros o0 Hl0.
  destruct Hst as (Hheap & _). destruct (Hheap l o0 Hl0) as [?|Hl']; [done |].
  apply exempt_Headers. rewrite Hl in Hl'. injection Hl' as <-. by eexists.
Qed.

Lemma respects_getMimeType (data jsonObjects : value) :
  respects exempt st0 (getMimeType data jsonObjects).
Proof.
  assert (∀ A msg, respects exempt st0 (@err A data msg)) as Herr.
  { intros A msg. apply respects_bind; [apply respects_log |].
    intros _. apply respects_throw. }
  assert (respects exempt st0
            (let* h := get_heap in
             if instanceof h data URLSearchParams then MIME_member "URL" else
             if instanceof h data FormData then MIME_member "FORM" else
             if instanceof h data Blob
                || instanceof h data ReadableStream
                || instanceof h data ArrayBufferView
             then MIME_member "BIN" else
             if instanceof h data XMLDocument then MIME_member "XML" else
             if instanceof h data Document then MIME_member "HTML" else
             if instanceof_Element h data
             then (if ownerDocument_instanceof_XMLDocument h data
                   then MIME_member "XML" else MIME_member "HTML") else
             if truthy (if decide (jsonObjects = VUndef) then VBool true
                        else jsonObjects)
             then MIME_member "JSON"
             else err data "Unsupported data object")) as Hobj.
  { apply respects_bind; [apply respects_get_heap |]. intros h.
    unfold MIME_member. repeat case_match; try apply respects_throw; apply Herr. }
  unfold getMimeType.
  destruct data as [| | | |s|l|callable text]; simpl; try apply Herr.
  - unfold MIME_member. repeat case_match; apply respects_throw.
  - exact Hobj.
  - destruct callable; [apply Herr | exact Hobj].
Qed.

Lemma respects_buildHeaders (localHeaders : value) :
  respects exempt st0 (buildHeaders this localHeaders).
Proof.
  apply respects_bind; [apply respects_get_heap |]. intros h.
  case_match; [apply respects_ret | apply respects_alloc].
Qed.

Lemma respects_setupBody (data headers : value) :
  respects exempt st0 (setupBody this data headers).
Proof.
  unfold setupBody.
  apply respects_bind; [apply respects_buildHeaders |]. intros hd.
  apply respects_bind; [apply respects_get_heap |]. intros h.
  apply respects_bind.
  { case_match; [|apply respects_ret].
    apply respects_bind; [apply respects_getMimeType |]. intros ct.
    apply respects_bind; [|intros _; apply respects_ret].
    case_match; [apply respects_Headers_set | apply respects_ret]. }
  intros ct. apply respects_bind; [apply respects_get_heap |]. intros h'.
  apply respects_bind; [|intros d; apply respects_ret].
  repeat case_match; try apply respects_ret; try apply respects_lift;
    apply respects_throw.
Qed.

Lemma respects_delete_property (data : value) (key : string) :
  strippable exempt st0 data → respects exempt st0 (delete_property data key).
Proof.
  intros Hdata. apply respects_bind; [apply respects_get_heap |]. intros h.
  destruct data as [| | | | |l|]; try apply respects_ret.
  repeat case_match; try apply respects_ret; try apply respects_throw;
    apply respects_store; intros o0; by apply Hdata.
Qed.

Lemma respects_parseURL_replacer placeholder data removeUsed missing arguments :
  (removeUsed = true → strippable exempt st0 data) →
  respects exempt st0 (parseURL_replacer placeholder data removeUsed missing arguments).
Proof.
  intros Hdata. apply respects_bind; [apply respects_get_heap |]. intros h.
  cbv zeta. destruct (decide _); [|apply respects_ret].
  apply respects_bind; [|intros _; apply respects_ret].
  destruct removeUsed; [by apply respects_delete_property, Hdata | apply respects_ret].
Qed.

Lemma respects_replaceAll placeholder data removeUsed input s :
  (removeUsed = true → strippable exempt st0 data) →
  ∀ skip pos missing,
    respects exempt st0 (replaceAll placeholder data removeUsed input skip pos s missing).
Proof.
  intros Hdata. induction s as [|c s IH]; intros skip pos missing.
  - apply respects_ret.
  - destruct skip as [|skip]; [|apply IH]. cbn [replaceAll].
    destruct (exec_at (pattern placeholder) (String c s)) as [groups|].
    + apply respects_bind; [by apply respects_parseURL_replacer |]. intros [m v].
      apply respects_bind; [apply respects_get_heap |]. intros h.
      apply respects_bind; [apply IH |]. intros [m' out]. apply respects_ret.
    + apply respects_bind; [apply IH |]. intros [m' out]. apply respects_ret.
Qed.

Lemma respects_parseURL (data : value) (removeUsed : bool) :
  (removeUsed = true → strippable exempt st0 data) →
  respects exempt st0 (parseURL this data removeUsed).
Proof.
  intros Hdata. apply respects_bind; [apply respects_get_heap |]. intros h.
  cbv zeta. destruct (getPlaceholders _ _ _); [|apply respects_ret].
  destruct (negb _); [apply respects_ret |].
  apply respects_bind; [by apply respects_replaceAll |]. intros [m out].
  destruct (_ <? _); [|apply respects_ret].
  apply respects_bind; [apply respects_log |]. intros _. apply respects_throw.
Qed.

End frame.

Section frame_makeRequest.
Context `{Platform}.
Variable this : WebserviceMethodCall.

(** [makeRequest] stays within the state it starts in; the argument and
    the instances of [Headers] are exempt. *)
Lemma makeRequest_within (options : value) (st : state) :
  within (λ l o, options = VRef l ∨ is_Headers o) st (makeRequest this options st).1.
Proof.
  set (exempt := λ (l : loc) (o : object), options = VRef l ∨ is_Headers o).
  assert (∀ l o, is_Headers o → exempt l o) as Hhd by (intros; by right).
  unfold makeRequest. apply respects_bind_from; [apply within_refl | |].
  { destruct (decide (options = VUndef));
      [apply respects_alloc | apply respects_ret]; apply within_refl. }
  intros a Ha.
  assert (strippable exempt st a) as Hstrip.
  { intros l o0 -> Hl. destruct (decide (options = VUndef)) as [->|Hne].
    - unfold alloc in Ha. injection Ha as Ha. subst l.
      apply lookup_lt_Some in Hl. lia.
    - unfold ret in Ha. injection Ha as Ha. by left. }
  assert (within exempt st
            ((if decide (options = VUndef) then alloc (Obj CObject []) else ret options)
               st).1) as Hst1.
  { destruct (decide (options = VUndef));
      [apply respects_alloc | apply respects_ret]; apply within_refl. }
  revert Hst1. generalize ((if decide (options = VUndef)
                            then alloc (Obj CObject []) else ret options) st).1.
  clear Ha. refine (_ : respects exempt st _).
  destruct (httpMethods this !! http this) as [methOpts|].
  2: { apply respects_bind; [apply respects_log |]. intros _. apply respects_throw. }
  destruct (decide (a = VNull)); [apply respects_throw |].
  apply respects_bind; [apply respects_get_heap |]. intros h.
  apply respects_bind; [apply respects_buildHeaders |]. intros headers.
  apply respects_bind; [apply respects_get_heap |]. intros h1. cbv zeta.
  destruct (_ && _); [apply respects_throw |].
  apply respects_bind.
  { apply respects_parseURL. intros Hrm%bool_decide_eq_true. by rewrite Hrm. }
  intros url. apply respects_bind; [apply respects_get_heap |]. intros h2.
  apply respects_bind.
  { destruct (notNil _); [|apply respects_ret].
    apply respects_bind; [by apply respects_setupBody |]. intros body.
    apply respects_ret. }
  intros reqOpts. apply respects_bind; [apply respects_get_heap |]. intros h3.
  apply respects_bind; [apply respects_log |]. intros _. apply respects_ret.
Qed.

End frame_makeRequest.

(** X1.  [makeRequest] hands nothing to the transport and only adds to the
    console.  Of the objects that exist when it is called it changes
    none, except the object it is given as its argument and the
    instances of [Headers]; this holds when it returns and when it
    throws. *)
Theorem makeRequest_frame `{Platform} (this : WebserviceMethodCall)
    (options : value) (st : state) :
  let st' := (makeRequest this options st).1 in
  dispatched st' = dispatched st
  ∧ console st `prefix_of` console st'
  ∧ ∀ l o, heap st !! l = Some o → options ≠ VRef l → ¬ is_Headers o →
           heap st' !! l = Some o.
Proof.
  destruct (makeRequest_within this options st) as (Hheap & Hdis & Hcon & _).
  repeat split; [done | done |].
  intros l o Hl Hopt Hhd. destruct (Hheap l o Hl) as [[?|?]|?]; done.
Qed.

(** [makeRequest_frame], at a [GET] whose bag is the first of two
    objects: the used key leaves the bag, the other object stays. *)
Lemma makeRequest_frame_witness :
  let this := constructor "getDoc" "/docs/:id" None None in
  let st := Sample.initial [Obj CObject [("id", VNum 1)]; Obj CObject [("k", VStr "v")]] in
  let st' := (@makeRequest (Sample.platform (Sample.response_of "")) this (VRef 0) st).1 in
  heap st' !! 0 = Some (Obj CObject [])
  ∧ heap st' !! 1 = Some (Obj CObject [("k", VStr "v")]).
Proof.
  intros this st st'. split; [reflexivity |].
  apply (proj2 (proj2 (@makeRequest_frame (Sample.platform (Sample.response_of ""))
                         this (VRef 0) st))).
  - reflexivity.
  - discriminate.
  - intros [es Hes]. discriminate.
Defined.

(** X2.  When the argument of [makeRequest] has [vars] of its own, another
    object than itself, the placeholders are resolved from that object
    and nothing is removed: no object that exists at the call is
    changed, the argument and the [vars] included, except an instance of
    [Headers]. *)
Theorem makeRequest_explicit_vars `{Platform} (this : WebserviceMethodCall)
    (l0 : loc) (o0 : object) (st : state) :
  heap st !! l0 = Some o0 →
  notNil (get_obj o0 "vars") = true → get_obj o0 "vars" ≠ VRef l0 →
  ∀ l o, heap st !! l = Some o → ¬ is_Headers o →
         heap (makeRequest this (VRef l0) st).1 !! l = Some o.
Proof.
  intros Hl0 Hvars Hself.
  set (exempt := λ (l : loc) (o : object), is_Headers o).
  enough (within exempt st (makeRequest this (VRef l0) st).1) as (Hheap & _).
  { intros l o Hl Hhd. by destruct (Hheap l o Hl). }
  assert (∀ l o, is_Headers o → exempt l o) as Hhd by done.
  destruct (httpMethods this !! http this) as [methOpts|] eqn:Hmeth.
  2: { unfold makeRequest. destruct (decide (VRef l0 = VUndef)); [done |].
       rewrite (bind_Ok _ _ st st (VRef l0)) by done. rewrite Hmeth.
       apply respects_bind; [apply respects_log | | apply within_refl].
       intros _. apply respects_throw. }
  destruct (makeRequest_start this l0 o0 methOpts st Hl0 Hmeth)
    as (st1 & headers & _ & Hpres & Hcon & Hdis & ->).
  assert (within exempt st st1) as Hst1.
  { repeat split; auto.
    - by rewrite Hcon.
    - destruct (decide (length (heap st) ≤ length (heap st1))) as [|Hlt]; [done |].
      destruct (lookup_lt_is_Some_2 (heap st) (length (heap st1))) as [o Ho]; [lia |].
      apply Hpres, lookup_lt_Some in Ho. lia. }
  cbv zeta.
  assert (makeRequest_urlData (heap st1) (VRef l0) = get_obj o0 "vars") as ->.
  { unfold makeRequest_urlData, nullish.
    by rewrite (Get_preserved _ _ _ _ _ Hl0 Hpres), Hvars. }
  rewrite (bool_decide_eq_false_2 (get_obj o0 "vars" = VRef l0)) by done.
  destruct (_ && _); [by apply respects_throw |].
  apply respects_bind; [by apply respects_parseURL | | exact Hst1].
  intros url. apply respects_bind; [apply respects_get_heap |]. intros h2.
  apply respects_bind.
  { destruct (notNil (makeRequest_bodyData _ _ _)); [|apply respects_ret].
    apply respects_bind; [by apply respects_setupBody |]. intros body.
    apply respects_ret. }
  intros reqOpts. apply respects_bind; [apply respects_get_heap |]. intros h3.
  apply respects_bind; [apply respects_log |]. intros _. apply respects_ret.
Qed.

(** [makeRequest_explicit_vars], at a [GET] with [vars] and [query]:
    the options and the [vars] keep what they had. *)
Lemma makeRequest_explicit_vars_witness :
  let this := constructor "getDoc" "/docs/:id" None None in
  let options := Obj CObject [("vars", VRef 1); ("query", VRef 2)] in
  let st := Sample.initial [options; Obj CObject [("id", VNum 1)]; Obj CObject []] in
  let st' := (@makeRequest (Sample.platform (Sample.response_of "")) this (VRef 0) st).1 in
  heap st' !! 0 = Some options
  ∧ heap st' !! 1 = Some (Obj CObject [("id", VNum 1)]).
Proof.
  intros this options st st'.
  assert (∀ l o, heap st !! l = Some o → ¬ is_Headers o → heap st' !! l = Some o)
    as Hsame.
  { apply (@makeRequest_explicit_vars (Sample.platform (Sample.response_of ""))
             this 0 options st); [reflexivity | reflexivity | discriminate]. }
  split; (apply Hsame; [reflexivity | intros [es Hes]; discriminate]).
Defined.



End FrameFacts.

(** ** The path that [parseURL] resolves *)

Module ResolveFacts.
Import Js Defs Eff Utils MethodCall Spec UtilsFacts MethodCallFacts.

Lemma ToString_fuel_insert (h : Heap) (l : loc) (c : class) (ps ps' : props) :
  not_array c → h !! l = Some (Obj c ps) →
  ∀ (fuel : nat) (v : value),
    ToString_fuel fuel (<[l := Obj c ps']> h) v = ToString_fuel fuel h v.
Proof.
  intros Hc Hl. induction fuel as [|fuel IH]; intros v.
  - destruct v as [| | | | |l'|]; try done. simpl.
    destruct (decide (l' = l)) as [->|Hne].
    + rewrite list_lookup_insert_eq by (by eapply lookup_lt_Some). rewrite Hl. simpl.
      destruct c; try done.
    + by rewrite list_lookup_insert_ne.
  - destruct v as [| | | | |l'|]; try done. simpl.
    destruct (decide (l' = l)) as [->|Hne].
    + rewrite list_lookup_insert_eq by (by eapply lookup_lt_Some). rewrite Hl. simpl.
      destruct c; try done. by destruct (Hc len).
    + rewrite list_lookup_insert_ne by done.
      destruct (h !! l') as [o|]; [|done]. destruct (cls o); try done.
      f_equal. apply list_fmap_ext. intros _ e _. simpl. by rewrite IH.
Qed.

Lemma ToString_insert (h : Heap) (l : loc) (c : class) (ps ps' : props) (v : value) :
  not_array c → h !! l = Some (Obj c ps) →
  ToString (<[l := Obj c ps']> h) v = ToString h v.
Proof.
  intros Hc Hl. unfold ToString. rewrite length_insert.
  by eapply ToString_fuel_insert.
Qed.

(** The text [replaceAll] returns for an object that is no array and
    has a value of its own for every name, when no name is asked for
    twice while used keys are removed. *)
Lemma replaceAll_object_substitute `{Platform} (placeholder : Placeholder)
    (removeUsed : bool) (input : string) (l : loc) (c : class) (h0 : Heap)
    (ps0 : props) :
  not_array c →
  ∀ (s : string) (skip pos : nat) (missing : list value) (st : state) (ps : props),
    heap st !! l = Some (Obj c ps) →
    (∀ v, ToString (heap st) v = ToString h0 v) →
    (∀ p, p ∈ params_in placeholder input skip pos s →
          ¬ lacking ps0 p ∧ get_own ps (key_of p) = get_own ps0 (key_of p)) →
    (removeUsed = true → NoDup (key_of <$> params_in placeholder input skip pos s)) →
    ∃ missing',
      (replaceAll placeholder (VRef l) removeUsed input skip pos s missing st).2
      = Ok (missing', substitute placeholder h0 ps0 input skip pos s).
Proof.
  intros Hc. induction s as [|ch s IH]; intros skip pos missing st ps Hl Hstr Hps Hdup.
  - by eexists.
  - destruct skip as [|skip]; [|by eapply IH].
    cbn [replaceAll params_in substitute] in *.
    destruct (exec_at (pattern placeholder) (String ch s)) as [groups|] eqn:Hexec.
    + unfold bind at 1.
      rewrite (parseURL_replacer_object placeholder removeUsed missing groups
                 pos input st l c ps Hc Hl).
      set (p := nth _ _ _) in *.
      destruct (Hps p) as [Hown Hp0]; [by left |].
      assert (read c ps (key_of p) = get_own ps0 (key_of p)) as Hread.
      { rewrite read_own; [done |]. by rewrite Hp0. }
      destruct (decide (read c ps (key_of p) ≠ VUndef)) as [_|Hp];
        [|destruct Hp; by rewrite Hread].
      rewrite Hread. rewrite (decide_False (P := lacking ps0 p)) by done.
      destruct removeUsed.
      * specialize (Hdup eq_refl). rewrite fmap_cons in Hdup.
        apply NoDup_cons in Hdup as [Hnotin Hdup].
        set (st' := with_heap st (<[l := Obj c (delete_own ps (key_of p))]> (heap st))).
        assert (heap st' !! l = Some (Obj c (delete_own ps (key_of p)))) as Hl'.
        { simpl. apply list_lookup_insert_eq. by eapply lookup_lt_Some. }
        assert (∀ v, ToString (heap st') v = ToString h0 v) as Hstr'.
        { intros v. simpl. rewrite (ToString_insert _ _ _ ps) by done. apply Hstr. }
        assert (∀ q, q ∈ params_in placeholder input (match_length groups - 1)
                       (S pos) s →
                     ¬ lacking ps0 q
                     ∧ get_own (delete_own ps (key_of p)) (key_of q)
                       = get_own ps0 (key_of q)) as Hps'.
        { intros q Hq. destruct (Hps q) as [Hq0 Hq1]; [by right |].
          split; [done |]. rewrite get_own_delete_ne; [done |].
          intros Heq. apply Hnotin. rewrite Heq. by apply list_elem_of_fmap_2. }
        destruct (replaceAll_object placeholder true input l c Hc s
                    (match_length groups - 1) (S pos) missing st' _ Hl')
          as [out Hout].
        destruct (IH (match_length groups - 1) (S pos) missing st' _ Hl' Hstr' Hps'
                    (λ _, Hdup)) as [missing' Hout'].
        rewrite Hout in Hout'. simpl in Hout'. injection Hout' as _ ->.
        unfold bind at 1, get_heap. fold st'.
        rewrite (bind_Ok _ _ _ _ _ Hout). eexists. unfold ret. simpl.
        by rewrite Hstr'.
      * assert (∀ q, q ∈ params_in placeholder input (match_length groups - 1)
                       (S pos) s →
                     ¬ lacking ps0 q
                     ∧ get_own ps (key_of q) = get_own ps0 (key_of q)) as Hps'
          by (intros q Hq; apply Hps; by right).
        destruct (replaceAll_object placeholder false input l c Hc s
                    (match_length groups - 1) (S pos) missing st _ Hl)
          as [out Hout].
        destruct (IH (match_length groups - 1) (S pos) missing st _ Hl Hstr Hps'
                    (λ Hf, False_ind _ (Bool.diff_false_true Hf)))
          as [missing' Hout'].
        rewrite Hout in Hout'. simpl in Hout'. injection Hout' as _ ->.
        unfold bind at 1, get_heap.
        rewrite (bind_Ok _ _ _ _ _ Hout). eexists. unfold ret. simpl.
        by rewrite Hstr.
    + destruct (replaceAll_object placeholder removeUsed input l c Hc s
                  0 (S pos) missing st _ Hl) as [out Hout].
      destruct (IH 0 (S pos) missing st _ Hl Hstr Hps Hdup) as [missing' Hout'].
      rewrite Hout in Hout'. simpl in Hout'. injection Hout' as _ ->.
      rewrite (bind_Ok _ _ _ _ _ Hout). by eexists.
Qed.

Lemma unresolved_lacking `{Platform} (c : class) (ps : props) (p : value) :
  unresolved c ps p → lacking ps p.
Proof.
  unfold unresolved, lacking. intros Hu.
  destruct (decide (get_own ps (key_of p) = VUndef)) as [|Hown]; [done |].
  by rewrite read_own in Hu.
Qed.

Lemma strip_all_present `{Platform} (c : class) (removeUsed : bool) (ps : props)
    (params : list value) :
  (∀ p, p ∈ params → ¬ lacking ps p) →
  (removeUsed = true → NoDup (key_of <$> params)) →
  (strip c removeUsed ps params).2 = [].
Proof.
  revert ps. induction params as [|p params IH]; intros ps Hall Hdup; [done |].
  simpl. rewrite decide_True; last first.
  { intros Hu. apply (Hall p); [by left |]. by eapply unresolved_lacking. }
  destruct removeUsed.
  - specialize (Hdup eq_refl). rewrite fmap_cons in Hdup.
    apply NoDup_cons in Hdup as [Hnotin Hdup]. apply IH; [|done].
    intros q Hq. unfold lacking. rewrite get_own_delete_ne.
    + apply Hall. by right.
    + intros Heq. apply Hnotin. rewrite Heq. by apply list_elem_of_fmap_2.
  - apply IH; [|done]. intros q Hq. apply Hall. by right.
Qed.

Lemma used_keys_all_present `{Platform} (c : class) (ps : props)
    (params : list value) :
  (∀ p, p ∈ params → ¬ lacking ps p) → used_keys c ps params = key_of <$> params.
Proof.
  intros Hall. unfold used_keys. induction params as [|p params IH]; [done |].
  rewrite fmap_cons, filter_cons_True; last first.
  { intros Hu. apply (Hall p); [by left |]. by eapply (unresolved_lacking c). }
  f_equal. apply IH. intros q Hq. apply Hall. by right.
Qed.

(** A name under which nothing is inherited, asked for twice, is missing
    the second time. *)
Lemma strip_repeated `{Platform} (c : class) (ps : props) (params : list value) :
  ¬ NoDup (filter (λ k, inherited c k = VUndef) (key_of <$> params)) →
  (strip c true ps params).2 ≠ [].
Proof.
  revert ps. induction params as [|p params IH]; intros ps Hdup.
  - destruct Hdup. constructor.
  - simpl. destruct (decide (read c ps (key_of p) ≠ VUndef)) as [Hp|Hp]; [|done].
    rewrite fmap_cons, filter_cons in Hdup.
    destruct (decide (inherited c (key_of p) = VUndef)) as [Hinh|Hinh];
      [|by apply IH].
    destruct (decide (key_of p ∈ key_of <$> params)) as [Hin|Hnotin].
    + apply list_elem_of_fmap in Hin as (q & Hq & Hin).
      apply (strip_missing_nonempty c true _ params q Hin).
      unfold unresolved. rewrite <- Hq. by rewrite read_delete_eq.
    + apply IH. intros Hnd. apply Hdup. apply NoDup_cons. split; [|done].
      intros Hin. apply Hnotin. by apply list_elem_of_filter in Hin as [_ Hin].
Qed.

(** X4.  When the data, an object that is no array, has a value for every
    name the placeholders of the path ask for, and, if used keys are to
    be removed, no name is asked for twice, [parseURL] returns the URL
    of the path with each placeholder replaced by the text of the value
    of its name.  With [removeUsed] the data loses exactly the keys that
    are named in the path; without it the data stays as it is.  Nothing
    is written to the console. *)
Theorem parseURL_resolves `{Platform} (this : WebserviceMethodCall) (l : loc)
    (c : class) (ps : props) (removeUsed : bool) (placeholder : Placeholder)
    (st : state) :
  not_array c → heap st !! l = Some (Obj c ps) →
  getPlaceholders this (heap st) (Some (fullPath this (heap st))) = Some placeholder →
  let rawPath := fullPath this (heap st) in
  let params := params_in placeholder rawPath 0 0 rawPath in
  (∀ p, p ∈ params → ¬ lacking ps p) →
  (removeUsed = true → NoDup (key_of <$> params)) →
  parseURL this (VRef l) removeUsed st
  = (with_heap st
       (<[l := Obj c (if removeUsed
                      then filter (λ kv, kv.1 ∉ key_of <$> params) ps else ps)]>
          (heap st)),
     Ok (new_URL (substitute placeholder (heap st) ps rawPath 0 0 rawPath))).
Proof.
  intros Hc Hl Hph rawPath params Hall Hdup.
  destruct (replaceAll_object placeholder removeUsed rawPath l c
              Hc rawPath 0 0 [] st ps Hl) as [out Hout].
  destruct (replaceAll_object_substitute placeholder removeUsed rawPath l c
              (heap st) ps Hc rawPath 0 0 [] st ps Hl) as [missing' Hsub];
    [done | by split; [apply Hall |] | done |].
  rewrite Hout in Hsub. simpl in Hsub. injection Hsub as _ ->.
  cbv zeta in Hout. fold params in Hout.
  rewrite (strip_all_present c removeUsed ps params Hall Hdup) in Hout.
  assert ((strip c removeUsed ps params).1
          = if removeUsed then filter (λ kv, kv.1 ∉ key_of <$> params) ps else ps)
    as Hprops.
  { destruct removeUsed.
    - by rewrite strip_true_props, used_keys_all_present.
    - apply strip_false_props. }
  rewrite Hprops in Hout.
  assert (∀ A (k : Heap → M A), bind get_heap k st = k (heap st) st) as Hget by done.
  subst params. subst rawPath.
  unfold parseURL. rewrite !Hget, Hph. simpl.
  by rewrite (bind_Ok _ _ _ _ _ Hout).
Qed.

(** [parseURL_resolves], at [/docs/{docId}/rev/{rev}] and a bag with
    both names and one more key. *)
Lemma parseURL_resolves_witness :
  let this := constructor "getRev" "/docs/{docId}/rev/{rev}" None None in
  let st := Sample.initial
              [Obj CObject [("docId", VNum 7); ("extra", VStr "x"); ("rev", VStr "b")]] in
  @parseURL (Sample.platform (Sample.response_of "")) this (VRef 0) true st
  = (Sample.initial [Obj CObject [("extra", VStr "x")]],
     Ok {| url_path := "/docs/7/rev/b"; searchParams := [] |}).
Proof.
  intros this st.
  etransitivity.
  - apply (@parseURL_resolves (Sample.platform (Sample.response_of "")) this 0 CObject
             [("docId", VNum 7); ("extra", VStr "x"); ("rev", VStr "b")]
             true BRACES st).
    + intros n. discriminate.
    + reflexivity.
    + reflexivity.
    + intros p Hp. apply list_elem_of_In in Hp. vm_compute in Hp.
      destruct Hp as [<-|[<-|[]]]; vm_compute; discriminate.
    + intros _. apply (bool_decide_unpack _). vm_compute. reflexivity.
  - vm_compute. reflexivity.
Defined.

(** X5.  With [removeUsed], a path that asks twice for a name under which
    the object inherits nothing cannot be resolved from an object that is
    no array: the first occurrence removes the key, the second finds
    nothing under it, and [parseURL] throws "Missing URL parameters",
    whatever the object holds of its own. *)
Theorem parseURL_repeated_name `{Platform} (this : WebserviceMethodCall) (l : loc)
    (c : class) (ps : props) (placeholder : Placeholder) (st : state) :
  not_array c → heap st !! l = Some (Obj c ps) →
  getPlaceholders this (heap st) (Some (fullPath this (heap st))) = Some placeholder →
  let rawPath := fullPath this (heap st) in
  let names := key_of <$> params_in placeholder rawPath 0 0 rawPath in
  ¬ NoDup (filter (λ k, inherited c k = VUndef) names) →
  ∃ st', parseURL this (VRef l) true st
         = (st', Throw (Error "Missing URL parameters")).
Proof.
  intros Hc Hl Hph rawPath names Hdup.
  destruct (parseURL_object this l c ps true placeholder st Hc Hl Hph) as [_ Hthrow].
  eexists. apply Hthrow. by apply strip_repeated.
Qed.

(** [parseURL_repeated_name], at [/a/:id/b/:id] and a bag that has [id]. *)
Lemma parseURL_repeated_name_witness :
  let this := constructor "twice" "/a/:id/b/:id" None None in
  let st := Sample.initial [Obj CObject [("id", VNum 3)]] in
  ∃ st', @parseURL (Sample.platform (Sample.response_of "")) this (VRef 0) true st
         = (st', Throw (Error "Missing URL parameters")).
Proof.
  intros this st.
  apply (@parseURL_repeated_name (Sample.platform (Sample.response_of "")) this 0
           CObject [("id", VNum 3)] COLONS st).
  - intros n. discriminate.
  - reflexivity.
  - reflexivity.
  - apply (bool_decide_unpack _). vm_compute. reflexivity.
Defined.

(** A name that is inherited resolves at every occurrence, with
    [removeUsed] too: there is no key of the object to remove. *)
Example parseURL_repeated_inherited_name :
  let this := constructor "twice" "/a/:valueOf/b/:valueOf" None None in
  let st := Sample.initial [Obj CObject []] in
  ∃ url, @parseURL (Sample.platform (Sample.response_of "")) this (VRef 0) true st
         = (st, Ok url).
Proof. intros this st. eexists. vm_compute. reflexivity. Qed.

End ResolveFacts.

(** ** The body of a request *)

Module BodyFacts.
Import Js Defs Eff Utils MethodCall Spec UtilsFacts MethodCallFacts.

Section body.
Context `{Platform}.
Variable this : WebserviceMethodCall.

(** What [buildHeaders] returns is an instance of [Headers]. *)
Lemma buildHeaders_instance (localHeaders : value) (st : state) :
  ∃ st1 lh es ps,
    buildHeaders this localHeaders st = (st1, Ok (VRef lh))
    ∧ heap st1 !! lh = Some (Obj (CHeaders es) ps).
Proof.
  destruct (instanceof_Headers (heap st) localHeaders) eqn:Hi.
  - rewrite buildHeaders_Headers by done.
    unfold instanceof_Headers, class_of in Hi.
    destruct localHeaders as [| | | | |l|]; try done.
    destruct (heap st !! l) as [[[] ps]|] eqn:Hl; try done.
    by exists st, l, es, ps.
  - destruct (buildHeaders_new this localHeaders st Hi) as [es Hes].
    exists (with_heap st (heap st ++ [Obj (CHeaders es) []])), (length (heap st)), es, [].
    split; [done |]. simpl. by rewrite lookup_app_r, Nat.sub_diag.
Qed.

Lemma setupBody_serialize_primitive (data contentType : value) (st : state) :
  isObj data = false →
  setupBody_serialize this data contentType st = (st, Ok data).
Proof. intros Hd. unfold setupBody_serialize, bind, get_heap. by rewrite Hd. Qed.

(** With a [Content-Type] in the headers, [setupBody] is the
    serialization under it. *)
Lemma setupBody_typed (data headers : value) (st st1 : state) (headers' : value) :
  buildHeaders this headers st = (st1, Ok headers') →
  truthy (headers_get (heap st1) headers' CT) = true →
  setupBody this data headers st
  = (let* d := setupBody_serialize this data (headers_get (heap st1) headers' CT) in
     ret (d, headers')) st1.
Proof.
  intros Hbuild Hct.
  apply (setupBody_steps this data headers st st1 headers' Hbuild).
  by rewrite Hct.
Qed.

(** With none, and a body, it is the error of [getMimeType]. *)
Lemma setupBody_untyped (data headers : value) (st st1 : state) (headers' : value) :
  buildHeaders this headers st = (st1, Ok headers') →
  truthy (headers_get (heap st1) headers' CT) = false → notNil data = true →
  ∃ st2 e,
    setupBody this data headers st = (st2, Throw e)
    ∧ getMimeType data (getOption this "jsonObjects" (VBool true)) st1
      = (st2, Throw e).
Proof.
  intros Hbuild Hct Hdata.
  apply (setupBody_steps this data headers st st1 headers' Hbuild).
  by rewrite Hct, Hdata.
Qed.

End body.

(** X6.  [setupBody] adds no [Content-Type].  When it has returned for a
    body that is neither [undefined] nor [null], the headers it returns
    are those that [buildHeaders] made, an instance of [Headers], they
    had a [Content-Type] that is not empty before the body was looked
    at, and nothing has changed since [buildHeaders].  When the headers
    that [buildHeaders] made have no [Content-Type], [setupBody] throws
    where it asks [getMimeType] for one, a [ReferenceError] or a
    [TypeError], and no object has changed since [buildHeaders]. *)
Theorem setupBody_returns_with_Content_Type `{Platform} (this : WebserviceMethodCall)
    (data headers : value) (st : state) :
  notNil data = true →
  (∀ st' data' headers',
     setupBody this data headers st = (st', Ok (data', headers')) →
     buildHeaders this headers st = (st', Ok headers')
     ∧ instanceof_Headers (heap st') headers' = true
     ∧ truthy (headers_get (heap st') headers' CT) = true)
  ∧ (∀ st1 headers',
       buildHeaders this headers st = (st1, Ok headers') →
       truthy (headers_get (heap st1) headers' CT) = false →
       ∃ st2 e,
         setupBody this data headers st = (st2, Throw e)
         ∧ heap st2 = heap st1
         ∧ (e = ReferenceError "MIME is not defined" ∨ ∃ msg, e = TypeError msg)).
Proof.
  intros Hdata.
  destruct (buildHeaders_instance this headers st) as (st1 & lh & es & ps & Hbuild & Hlh).
  split.
  - intros st' data' headers'.
    destruct (truthy (headers_get (heap st1) (VRef lh) CT)) eqn:Hct.
    + rewrite (setupBody_typed this data headers st st1 (VRef lh) Hbuild Hct).
      unfold bind.
      pose proof (setupBody_serialize_keeps_state this data
                    (headers_get (heap st1) (VRef lh) CT) st1) as Hkeep.
      destruct (setupBody_serialize _ _ _ st1) as [st2 [d|e]]; [|done].
      simpl in Hkeep. subst st2. intros [= <- <- <-].
      split; [done |]. split; [|done].
      unfold instanceof_Headers, class_of. by rewrite Hlh.
    + destruct (setupBody_untyped this data headers st st1 (VRef lh) Hbuild Hct Hdata)
        as (st2 & e & -> & _).
      by intros [=].
  - intros st1' headers' Hbuild' Hct.
    destruct (setupBody_untyped this data headers st st1' headers' Hbuild' Hct Hdata)
      as (st2 & e & Hsetup & Hmime).
    destruct (getMimeType_throws data (getOption this "jsonObjects" (VBool true)) st1')
      as (st2' & e' & Hmime' & Hheap & _ & He).
    rewrite Hmime in Hmime'. injection Hmime' as <- <-.
    exists st2, e. split; [done |]. split; [done |].
    destruct He as [[-> _] | [Hmsg _]]; [by left | by right].
Qed.

(** [setupBody_returns_with_Content_Type], at a string body, with
    [text/plain] as the [contentType] option and without it. *)
Lemma setupBody_returns_with_Content_Type_witness :
  let typed := constructor "newDoc" "/docs/" (Some "POST")
                 (Some [("contentType", VStr "text/plain")]) in
  let untyped := constructor "newDoc" "/docs/" (Some "POST") None in
  let P := Sample.platform (Sample.response_of "") in
  let st' := (@setupBody P typed (VStr "{}") VUndef (Sample.initial [])).1 in
  (instanceof_Headers (heap st') (VRef 0) = true
   ∧ headers_get (heap st') (VRef 0) CT = VStr "text/plain")
  ∧ ∃ st2 e,
      @setupBody P untyped (VStr "{}") VUndef (Sample.initial []) = (st2, Throw e)
      ∧ heap st2 = [Obj (CHeaders []) []]
      ∧ (e = ReferenceError "MIME is not defined" ∨ ∃ msg, e = TypeError msg).
Proof.
  intros typed untyped P st'. split.
  - destruct (proj1 (@setupBody_returns_with_Content_Type P typed (VStr "{}") VUndef
                       (Sample.initial []) eq_refl) st' (VStr "{}") (VRef 0) eq_refl)
      as (_ & Hinstance & _).
    split; [exact Hinstance | reflexivity].
  - exact (proj2 (@setupBody_returns_with_Content_Type P untyped (VStr "{}") VUndef
                    (Sample.initial []) eq_refl) _ (VRef 0) eq_refl eq_refl).
Defined.

(** X7.  A string as the body: with a [Content-Type] in the headers that
    [buildHeaders] made it goes through as it is, and the state is as
    [buildHeaders] left it; with none, [setupBody] throws
    [ReferenceError] "MIME is not defined", whatever the string is, and
    nothing is written to the console. *)
Theorem setupBody_string `{Platform} (this : WebserviceMethodCall) (s : string)
    (headers : value) (st st1 : state) (headers' : value) :
  buildHeaders this headers st = (st1, Ok headers') →
  (truthy (headers_get (heap st1) headers' CT) = true →
     setupBody this (VStr s) headers st = (st1, Ok (VStr s, headers')))
  ∧ (truthy (headers_get (heap st1) headers' CT) = false →
       setupBody this (VStr s) headers st
       = (st1, Throw (ReferenceError "MIME is not defined"))).
Proof.
  intros Hbuild. split; intros Hct.
  - rewrite (setupBody_typed this (VStr s) headers st st1 headers' Hbuild Hct).
    unfold bind. by rewrite setupBody_serialize_primitive.
  - destruct (setupBody_untyped this (VStr s) headers st st1 headers' Hbuild Hct eq_refl)
      as (st2 & e & -> & Hmime).
    rewrite getMimeType_string in Hmime. by injection Hmime as <- <-.
Qed.

(** [setupBody_string], at the string [hello], with [text/plain] as the
    [contentType] option and without it. *)
Lemma setupBody_string_witness :
  let typed := constructor "note" "/n" (Some "POST")
                 (Some [("contentType", VStr "text/plain")]) in
  let untyped := constructor "note" "/n" (Some "POST") None in
  let P := Sample.platform (Sample.response_of "") in
  (@setupBody P typed (VStr "hello") VUndef (Sample.initial [])).2
  = Ok (VStr "hello", VRef 0)
  ∧ (@setupBody P untyped (VStr "hello") VUndef (Sample.initial [])).2
    = Throw (ReferenceError "MIME is not defined").
Proof.
  intros typed untyped P. split.
  - rewrite (proj1 (@setupBody_string P typed "hello" VUndef
                      (Sample.initial []) _ _ eq_refl) eq_refl).
    reflexivity.
  - rewrite (proj2 (@setupBody_string P untyped "hello" VUndef
                      (Sample.initial []) _ _ eq_refl) eq_refl).
    reflexivity.
Defined.

(** X8.  A number or a boolean as the body: with a [Content-Type] in the
    headers it goes through as it is; with none, [setupBody] throws
    [TypeError] "Invalid data type", after a message on the console. *)
Theorem setupBody_number_or_boolean `{Platform} (this : WebserviceMethodCall)
    (data headers : value) (st st1 : state) (headers' : value) :
  (∃ n, data = VNum n) ∨ (∃ b, data = VBool b) →
  buildHeaders this headers st = (st1, Ok headers') →
  (truthy (headers_get (heap st1) headers' CT) = true →
     setupBody this data headers st = (st1, Ok (data, headers')))
  ∧ (truthy (headers_get (heap st1) headers' CT) = false →
       setupBody this data headers st
       = (logged (LogGetTypeFor data) st1, Throw (TypeError "Invalid data type"))).
Proof.
  intros Hdata Hbuild.
  assert (isObj data = false ∧ notNil data = true) as [Hobj Hnil]
    by (destruct Hdata as [[? ->]|[? ->]]; done).
  split; intros Hct.
  - rewrite (setupBody_typed this data headers st st1 headers' Hbuild Hct).
    unfold bind. by rewrite setupBody_serialize_primitive.
  - destruct (setupBody_untyped this data headers st st1 headers' Hbuild Hct Hnil)
      as (st2 & e & -> & Hmime).
    assert (getMimeType data (getOption this "jsonObjects" (VBool true)) st1
            = (logged (LogGetTypeFor data) st1, Throw (TypeError "Invalid data type")))
      as Hinvalid by (destruct Hdata as [[? ->]|[? ->]]; reflexivity).
    congruence.
Qed.

(** [setupBody_number_or_boolean], at the number 5, with [text/plain]
    as the [contentType] option and without it. *)
Lemma setupBody_number_or_boolean_witness :
  let typed := constructor "put" "/n" (Some "PUT") (Some [("contentType", VStr "text/plain")]) in
  let untyped := constructor "put" "/n" (Some "PUT") None in
  let P := Sample.platform (Sample.response_of "") in
  (@setupBody P typed (VNum 5) VUndef (Sample.initial [])).2 = Ok (VNum 5, VRef 0)
  ∧ (@setupBody P untyped (VNum 5) VUndef (Sample.initial [])).2
    = Throw (TypeError "Invalid data type").
Proof.
  intros typed untyped P. split.
  - rewrite (proj1 (@setupBody_number_or_boolean P typed (VNum 5) VUndef
                      (Sample.initial []) _ _ (or_introl (ex_intro _ 5%Z eq_refl))
                      eq_refl) eq_refl).
    reflexivity.
  - rewrite (proj2 (@setupBody_number_or_boolean P untyped (VNum 5) VUndef
                      (Sample.initial []) _ _ (or_introl (ex_intro _ 5%Z eq_refl))
                      eq_refl) eq_refl).
    reflexivity.
Defined.

(** X9.  A body that the platform serializes itself (a [URLSearchParams], a
    [FormData], a [Blob], a [ReadableStream], a typed array or a
    [DataView]): when the headers that [buildHeaders] made have no
    [Content-Type], [setupBody] throws [ReferenceError] "MIME is not
    defined" and the headers get no type; when they have one that is
    none of the JSON, XML, HTML and XHTML types, the body goes through as
    it is.  In both cases the state is as [buildHeaders] left it. *)
Theorem setupBody_transport_body `{Platform} (this : WebserviceMethodCall)
    (l : loc) (k : host_kind) (headers : value) (st st1 : state) (headers' : value) :
  buildHeaders this headers st = (st1, Ok headers') →
  host_of (heap st1) (VRef l) = Some k → transport_body k →
  let contentType := headers_get (heap st1) headers' CT in
  (truthy contentType = false →
     setupBody this (VRef l) headers st
     = (st1, Throw (ReferenceError "MIME is not defined")))
  ∧ (truthy contentType = true →
     contentType ≠ VStr MIME.JSON → contentType ≠ VStr MIME.XML →
     contentType ≠ VStr MIME.HTML → contentType ≠ VStr MIME.XHTML →
     setupBody this (VRef l) headers st = (st1, Ok (VRef l, headers'))).
Proof.
  intros Hbuild Hk Hkind contentType. split.
  - intros Hct.
    destruct (setupBody_untyped this (VRef l) headers st st1 headers' Hbuild Hct eq_refl)
      as (st2 & e & -> & Hmime).
    rewrite getMimeType_object, Hk in Hmime.
    destruct Hkind as [->|[->|[->|[->| ->]]]]; by injection Hmime as <- <-.
  - intros Hct HJSON HXML HHTML HXHTML.
    rewrite (setupBody_typed this (VRef l) headers st st1 headers' Hbuild Hct).
    fold contentType. unfold setupBody_serialize, get_heap, bind. cbn [isObj].
    rewrite !decide_False by tauto. reflexivity.
Qed.

(** [setupBody_transport_body], at a [FormData], without a
    [Content-Type] and with [multipart/form-data] as the [contentType]
    option. *)
Lemma setupBody_transport_body_witness :
  let untyped := constructor "upload" "/files" (Some "POST") None in
  let typed := constructor "upload" "/files" (Some "POST")
                 (Some [("contentType", VStr "multipart/form-data")]) in
  let P := Sample.platform (Sample.response_of "") in
  let st := Sample.initial [Obj (CHost FormData "[object FormData]") []] in
  (@setupBody P untyped (VRef 0) VUndef st).2
  = Throw (ReferenceError "MIME is not defined")
  ∧ (@setupBody P typed (VRef 0) VUndef st).2 = Ok (VRef 0, VRef 1).
Proof.
  intros untyped typed P st. split.
  - rewrite (proj1 (@setupBody_transport_body P untyped 0 FormData VUndef st _ _
                      eq_refl eq_refl (or_intror (or_introl eq_refl))) eq_refl).
    reflexivity.
  - rewrite (proj2 (@setupBody_transport_body P typed 0 FormData VUndef st _ _
                      eq_refl eq_refl (or_intror (or_introl eq_refl))));
      [reflexivity | reflexivity | discriminate ..].
Defined.

(** X10.  An object as the body under the content type [application/json]
    in the headers that [buildHeaders] made: the data is what
    [JSON.stringify] makes of the object with the [replacer] and [space]
    of the [toJSON] options, an error of [JSON.stringify] is the error of
    [setupBody], and the state is as [buildHeaders] left it.  With no
    [Content-Type] in those headers, an object that is none of the
    platform's own kinds (a plain object, an array, also a bare
    [ArrayBuffer]) is not made JSON, though [jsonObjects] is on:
    [setupBody] throws [ReferenceError] "MIME is not defined". *)
Theorem setupBody_object_JSON `{Platform} (this : WebserviceMethodCall)
    (l : loc) (headers : value) (st st1 : state) (headers' : value) :
  buildHeaders this headers st = (st1, Ok headers') →
  (headers_get (heap st1) headers' CT = VStr MIME.JSON →
     setupBody this (VRef l) headers st
     = (st1,
        match JSON_stringify (heap st1) (VRef l)
                (get_own (jsonStringifyOpts this (heap st1)) "replacer")
                (get_own (jsonStringifyOpts this (heap st1)) "space") with
        | Ok data => Ok (data, headers')
        | Throw e => Throw e
        end))
  ∧ (truthy (headers_get (heap st1) headers' CT) = false →
     (∀ k, host_of (heap st1) (VRef l) = Some k → k = ArrayBuffer) →
     truthy (getOption this "jsonObjects" (VBool true)) = true →
     setupBody this (VRef l) headers st
     = (st1, Throw (ReferenceError "MIME is not defined"))).
Proof.
  intros Hbuild. split.
  - intros Hct.
    rewrite (setupBody_typed this (VRef l) headers st st1 headers' Hbuild)
      by (by rewrite Hct).
    rewrite Hct. unfold setupBody_serialize, get_heap, bind, lift. cbn [isObj].
    rewrite decide_True by done. by destruct (JSON_stringify _ _ _ _).
  - intros Hct Hkind Hjson.
    destruct (setupBody_untyped this (VRef l) headers st st1 headers' Hbuild Hct eq_refl)
      as (st2 & e & -> & Hmime).
    rewrite getMimeType_object in Hmime.
    assert (jsonObjects_enabled (getOption this "jsonObjects" (VBool true)) = true)
      as Henabled.
    { unfold jsonObjects_enabled.
      destruct (decide (getOption this "jsonObjects" (VBool true) = VUndef)); done. }
    rewrite Henabled in Hmime.
    destruct (host_of (heap st1) (VRef l)) as [k|] eqn:Hk.
    + rewrite (Hkind k eq_refl) in Hmime. by injection Hmime as <- <-.
    + by injection Hmime as <- <-.
Qed.

(** [setupBody_object_JSON], at a plain object, with
    [application/json] as the [contentType] option and without it. *)
Lemma setupBody_object_JSON_witness :
  let typed := constructor "newDoc" "/docs" (Some "POST")
                 (Some [("contentType", VStr "application/json")]) in
  let untyped := constructor "newDoc" "/docs" (Some "POST") None in
  let P := Sample.platform (Sample.response_of "") in
  let st := Sample.initial [Obj CObject [("title", VStr "a")]] in
  (@setupBody P typed (VRef 0) VUndef st).2
  = Ok (VStr ("{" +:+ Sample.quote "title" +:+ ":" +:+ Sample.quote "a" +:+ "}"),
        VRef 1)
  ∧ (@setupBody P untyped (VRef 0) VUndef st).2
    = Throw (ReferenceError "MIME is not defined").
Proof.
  intros typed untyped P st. split.
  - rewrite (proj1 (@setupBody_object_JSON P typed 0 VUndef st _ _ eq_refl) eq_refl).
    reflexivity.
  - rewrite (proj2 (@setupBody_object_JSON P untyped 0 VUndef st _ _ eq_refl));
      [reflexivity | reflexivity | by intros k | reflexivity].
Defined.

(** X11.  An object as the body under the content type [text/html] or
    [application/xhtml+xml]: for a [Document] the result is the markup
    of the document of the page, whichever document was given; for an
    [Element] it is the markup of that element; for anything else
    [setupBody] throws [TypeError].  The state stays as [buildHeaders]
    left it. *)
Theorem setupBody_HTML `{Platform} (this : WebserviceMethodCall)
    (l : loc) (headers : value) (st st1 : state) (headers' : value) (c : string) :
  buildHeaders this headers st = (st1, Ok headers') →
  headers_get (heap st1) headers' CT = VStr c →
  c = MIME.HTML ∨ c = MIME.XHTML →
  setupBody this (VRef l) headers st
  = (st1,
     if instanceof_Document (heap st1) (VRef l) then Ok (document_outerHTML, headers')
     else if instanceof_Element (heap st1) (VRef l)
          then Ok (outerHTML (heap st1) (VRef l), headers')
          else Throw (TypeError "Invalid HTML Document or Element")).
Proof.
  intros Hbuild Hct Hc.
  assert (truthy (VStr c) = true) as Htruthy by (by destruct Hc as [-> | ->]).
  rewrite (setupBody_typed this (VRef l) headers st st1 headers' Hbuild)
    by (by rewrite Hct).
  rewrite Hct. unfold setupBody_serialize, get_heap, bind. cbn [isObj].
  destruct Hc as [-> | ->];
    (rewrite decide_False by discriminate; rewrite decide_False by discriminate;
     rewrite decide_True by auto;
     destruct (instanceof_Document (heap st1) (VRef l)); [done |];
     destruct (instanceof_Element (heap st1) (VRef l)); done).
Qed.

(** [setupBody_HTML], at a document that is not that of the page. *)
Lemma setupBody_HTML_witness :
  let this := constructor "page" "/p" (Some "PUT") (Some [("contentType", VStr "text/html")]) in
  let P := Sample.platform (Sample.response_of "") in
  let st := Sample.initial [Obj (CHost Document "[object HTMLDocument]") []] in
  (@setupBody P this (VRef 0) VUndef st).2 = Ok (VStr "<html></html>", VRef 1).
Proof.
  intros this P st.
  rewrite (@setupBody_HTML P this 0 VUndef st
             (with_heap st (heap st ++ [Obj (CHeaders [("content-type", "text/html")]) []]))
             (VRef 1) "text/html" eq_refl eq_refl (or_introl eq_refl)).
  reflexivity.
Defined.

End BodyFacts.

(** ** The query of a request *)

Module QueryFacts.
Import Js Defs Eff Utils MethodCall Spec UtilsFacts MethodCallFacts.






End QueryFacts.

(** ** The path of a method call *)

Module PathFacts.
Import Js Defs Eff Utils MethodCall Spec UtilsFacts MethodCallFacts.

Lemma normalize_slashes_other (c : ascii) (s : string) :
  c ≠ "/"%char → normalize_slashes (String c s) = String c (normalize_slashes s).
Proof.
  intros Hc. destruct c as [[] [] [] [] [] [] [] []]; try reflexivity. by destruct Hc.
Qed.

Lemma normalize_slashes_slash (s : string) :
  normalize_slashes (String "/" s)
  = match s with
    | String d _ => if decide (d = "/"%char) then normalize_slashes s
                    else String "/" (normalize_slashes s)
    | EmptyString => "/"
    end.
Proof.
  destruct s as [|d s]; [done |].
  destruct (decide (d = "/"%char)) as [->|Hd]; [done |].
  destruct d as [[] [] [] [] [] [] [] []]; try reflexivity. by destruct Hd.
Qed.

Lemma normalize_slashes_head (s r : string) :
  normalize_slashes s = String "/" r → ∃ r', s = String "/" r'.
Proof.
  destruct s as [|c s]; [done |].
  destruct (decide (c = "/"%char)) as [->|Hc]; [by eexists |].
  rewrite normalize_slashes_other by done. by intros [= ?].
Qed.

Lemma normalize_slashes_from_slash (s : string) :
  ∃ r, normalize_slashes (String "/" s) = String "/" r.
Proof.
  induction s as [|d s IH]; [by eexists |].
  rewrite normalize_slashes_slash.
  destruct (decide (d = "/"%char)) as [->|Hd]; [apply IH | by eexists].
Qed.

Lemma normalize_slashes_single (s a b : string) :
  normalize_slashes s ≠ a +:+ "//" +:+ b.
Proof.
  revert a. induction s as [|c s IH]; intros a.
  - by destruct a.
  - destruct (decide (c = "/"%char)) as [->|Hc].
    + rewrite normalize_slashes_slash. destruct s as [|d s]; [by destruct a as [|? [|]] |].
      destruct (decide (d = "/"%char)) as [->|Hd]; [apply IH |].
      destruct a as [|c' a].
      * rewrite append_empty_l. unfold_append. intros [= Heq].
        apply (normalize_slashes_head (String d s)) in Heq as [r' [= ?]]. done.
      * rewrite append_cons. intros [= _ Heq]. by apply IH in Heq.
    + rewrite normalize_slashes_other by done. destruct a as [|c' a].
      * rewrite append_empty_l. unfold_append. by intros [= ?].
      * rewrite append_cons. intros [= _ Heq]. by apply IH in Heq.
Qed.

(** X13.  The full path of a method call has no two slashes in a row,
    wherever they were: in the path, in the base path (those after the
    scheme of an absolute URL too), or where the two are joined.
    Without a base path it starts with a slash. *)
Theorem fullPath_single_slashes (this : WebserviceMethodCall) (h : Heap) :
  (∀ a b, fullPath this h ≠ a +:+ "//" +:+ b)
  ∧ ((∀ w, ws this = Some w → truthy (get_own (_options w) "basePath") = false) →
     ∃ r, fullPath this h = String "/" r).
Proof.
  split.
  - intros a b. apply normalize_slashes_single.
  - intros Hbase. unfold fullPath.
    assert ((match ws this with
             | Some w => if truthy (get_own (_options w) "basePath")
                         then ToString h (get_own (_options w) "basePath") else ""
             | None => ""
             end) = "") as ->.
    { destruct (ws this) as [w|]; [|done]. by rewrite (Hbase w). }
    rewrite append_empty_l. apply normalize_slashes_from_slash.
Qed.

(** [fullPath_single_slashes], at a call without a service. *)
Lemma fullPath_single_slashes_witness :
  ∃ r, fullPath (constructor "doc" "//docs///:id" None None) [] = String "/" r.
Proof.
  apply (proj2 (fullPath_single_slashes (constructor "doc" "//docs///:id" None None) [])).
  intros w Hw. discriminate.
Defined.

Lemma has_match_spec (re : RegExp) (s : string) :
  has_match re s = true ↔ ∃ a b, s = a +:+ b ∧ exec_at re b ≠ None.
Proof.
  induction s as [|c s IH].
  - simpl. destruct (exec_at re "") eqn:Hexec.
    + split; [|done]. intros _. exists "", "". by rewrite Hexec.
    + split; [done |]. intros (a & b & Hab & Hb).
      destruct a, b; done.
  - simpl. destruct (exec_at re (String c s)) eqn:Hexec.
    + split; [|done]. intros _. exists "", (String c s). by rewrite Hexec.
    + rewrite IH. split.
      * intros (a & b & -> & Hb). by exists (String c a), b.
      * intros (a & b & Hab & Hb). destruct a as [|c' a].
        -- rewrite append_empty_l in Hab. subst b. by rewrite Hexec in Hb.
        -- rewrite append_cons in Hab. injection Hab as _ ->. by exists a, b.
Qed.

Lemma take_name_nonempty (c : ascii) (s : string) :
  is_name_char c = true → (take_name (String c s)).1 ≠ "".
Proof. intros Hc. simpl. rewrite Hc. by destruct (take_name s). Qed.

Lemma take_name_empty (s : string) :
  (take_name s).1 = "" →
  s = "" ∨ ∃ c r, s = String c r ∧ is_name_char c = false.
Proof.
  destruct s as [|c s]; [by left |]. simpl.
  destruct (is_name_char c) eqn:Hc; [by destruct (take_name s) | right; eauto].
Qed.

Lemma take_name_spec (s : string) :
  s = (take_name s).1 +:+ (take_name s).2
  ∧ Forall (λ c, is_name_char c = true) (String.list_ascii_of_string (take_name s).1).
Proof.
  induction s as [|c s [IH1 IH2]]; [by split |]. simpl.
  destruct (is_name_char c) eqn:Hc; [|by split].
  destruct (take_name s) as [n r]. simpl in *. split.
  - by rewrite append_cons, <- IH1.
  - by constructor.
Qed.

Lemma take_name_app (n : string) (c : ascii) (r : string) :
  Forall (λ c, is_name_char c = true) (String.list_ascii_of_string n) →
  is_name_char c = false →
  take_name (n +:+ String c r) = (n, String c r).
Proof.
  intros Hn Hc. induction n as [|d n IH].
  - rewrite append_empty_l. simpl. by rewrite Hc.
  - simpl in Hn. apply Forall_cons in Hn as [Hd Hn]. rewrite append_cons. simpl.
    by rewrite Hd, IH.
Qed.

Lemma COLONS_exec_at (c : ascii) (s : string) :
  exec_at COLONS_pattern (String c s) ≠ None
  ↔ c = ":"%char ∧ ∃ d r, s = String d r ∧ is_name_char d = true.
Proof.
  destruct (decide (c = ":"%char)) as [->|Hc].
  - simpl. split.
    + intros Hexec. split; [done |].
      destruct (take_name s) as [n r] eqn:Htake. destruct n as [|d n]; [done |].
      destruct s as [|d' s]; [done |]. simpl in Htake.
      destruct (is_name_char d') eqn:Hd'; [by eauto | done].
    + intros (_ & d & r & -> & Hd).
      pose proof (take_name_nonempty d r Hd) as Hne.
      by destruct (take_name (String d r)) as [[|] ?].
  - split; [|by intros [? _]].
    destruct c as [[] [] [] [] [] [] [] []]; try done.
Qed.

Lemma BRACES_exec_at (c : ascii) (s : string) :
  exec_at BRACES_pattern (String c s) ≠ None
  ↔ c = "{"%char ∧ ∃ n b, s = n +:+ String "}" b ∧ is_name n.
Proof.
  destruct (decide (c = "{"%char)) as [->|Hc].
  - simpl. split.
    + intros Hexec. split; [done |].
      destruct (take_name_spec s) as [Hs Hn].
      destruct (take_name s) as [n r]. simpl in *.
      destruct n as [|d n]; [done |].
      destruct r as [|e r]; [done |].
      destruct (decide (e = "}"%char)) as [->|He].
      * by exists (String d n), r.
      * destruct e as [[] [] [] [] [] [] [] []]; try done.
    + intros (_ & n & b & -> & Hne & Hn).
      rewrite take_name_app by done. by destruct n.
  - split; [|by intros [? _]].
    destruct c as [[] [] [] [] [] [] [] []]; try done.
Qed.

Lemma has_match_COLONS (s : string) :
  has_match COLONS_pattern s = true ↔ has_colon_name s.
Proof.
  rewrite has_match_spec. unfold has_colon_name. split.
  - intros (a & b & -> & Hb). destruct b as [|c b]; [done |].
    apply COLONS_exec_at in Hb as (-> & d & r & -> & Hd). by exists a, d, r.
  - intros (a & c & b & -> & Hc). exists a, (String ":" (String c b)).
    split; [done |]. apply COLONS_exec_at. eauto.
Qed.

Lemma has_match_BRACES (s : string) :
  has_match BRACES_pattern s = true ↔ has_braced_name s.
Proof.
  rewrite has_match_spec. unfold has_braced_name. split.
  - intros (a & b & -> & Hb). destruct b as [|c b]; [done |].
    apply BRACES_exec_at in Hb as (-> & n & r & -> & Hn). by exists a, n, r.
  - intros (a & n & b & -> & Hn). exists a, (String "{" (n +:+ String "}" b)).
    split; [done |]. apply BRACES_exec_at. eauto.
Qed.

(** X14.  How [getPlaceholders] chooses the rule for a path.  A rule given as
    the [placeholders] option is the answer for every path.  Without
    one: a colon followed by a character of a name anywhere in the path
    selects [COLONS], also when the path has names in braces; otherwise
    a name in braces selects [BRACES]; otherwise there is no rule. *)
Theorem getPlaceholders_detection (this : WebserviceMethodCall) (h : Heap)
    (path : string) :
  (∀ p, class_of h (getOption this "placeholders" VUndef) = Some (CPlaceholder p) →
        getPlaceholders this h (Some path) = Some p)
  ∧ ((∀ p, class_of h (getOption this "placeholders" VUndef) ≠ Some (CPlaceholder p)) →
     (has_colon_name path → getPlaceholders this h (Some path) = Some COLONS)
     ∧ (¬ has_colon_name path → has_braced_name path →
          getPlaceholders this h (Some path) = Some BRACES)
     ∧ (¬ has_colon_name path → ¬ has_braced_name path →
          getPlaceholders this h (Some path) = None)).
Proof.
  split.
  - intros p Hp. unfold getPlaceholders. by rewrite Hp.
  - intros Hnone.
    assert (getPlaceholders this h (Some path) = first_matching PLACEHOLDERS path) as ->.
    { unfold getPlaceholders.
      destruct (class_of h _) as [[]|] eqn:Hcls; try done. by destruct (Hnone p). }
    simpl. rewrite <- has_match_COLONS, <- has_match_BRACES.
    destruct (has_match COLONS_pattern path), (has_match BRACES_pattern path);
      repeat split; intros; done.
Qed.

(** [getPlaceholders_detection], at a path with a port in it. *)
Lemma getPlaceholders_detection_witness :
  getPlaceholders (constructor "doc" "localhost:8080/{id}" None None) []
    (Some "localhost:8080/{id}") = Some COLONS.
Proof.
  apply (proj2 (getPlaceholders_detection
                  (constructor "doc" "localhost:8080/{id}" None None) []
                  "localhost:8080/{id}")).
  - intros p. discriminate.
  - exists "localhost", "8"%char, "080/{id}". by split.
Defined.

End PathFacts.

(** ** Options *)

Module OptionFacts.
Import Js Defs Eff Utils MethodCall Spec UtilsFacts MethodCallFacts.

Lemma get_own_set_own (ps : props) (k k' : string) (v : value) :
  get_own (set_own ps k v) k' = if decide (k = k') then v else get_own ps k'.
Proof.
  induction ps as [|[k0 v0] ps IH]; simpl.
  - by destruct (decide (k = k')).
  - destruct (decide (k0 = k)) as [->|Hne]; simpl.
    + by destruct (decide (k = k')).
    + rewrite IH. destruct (decide (k0 = k')) as [->|]; [|done].
      by rewrite decide_False.
Qed.

Lemma get_own_absent (ps : props) (k : string) :
  k ∉ ps.*1 → get_own ps k = VUndef.
Proof.
  induction ps as [|[k0 v0] ps IH]; [done |]. rewrite fmap_cons, not_elem_of_cons.
  intros [Hne Hk]. simpl in *. rewrite decide_False by done. by apply IH.
Qed.

Lemma get_own_assign (target source : props) (k : string) :
  NoDup source.*1 →
  get_own (assign target source) k
  = if decide (k ∈ source.*1) then get_own source k else get_own target k.
Proof.
  unfold assign. revert target.
  induction source as [|[k0 v0] source IH]; intros target Hdup.
  - by rewrite decide_False by apply not_elem_of_nil.
  - rewrite fmap_cons in Hdup. apply NoDup_cons in Hdup as [Hnotin Hdup].
    cbn [foldl fst snd]. rewrite IH, get_own_set_own by done.
    rewrite fmap_cons. cbn [get_own fst].
    destruct (decide (k0 = k)) as [->|Hne].
    + rewrite decide_False by done. by rewrite decide_True by (by left).
    + destruct (decide (k ∈ source.*1)) as [Hin|Hout].
      * by rewrite decide_True by (by right).
      * rewrite decide_False; [done |]. rewrite not_elem_of_cons. by split.
Qed.

Lemma get_own_foldl_assign (target : props) (layers : list props) (k : string) :
  Forall (λ ps, NoDup ps.*1) layers →
  get_own (foldl assign target layers) k = topmost (reverse layers ++ [target]) k.
Proof.
  induction layers as [|ps layers IH] using rev_ind; intros Hdup.
  - change (get_own target k = topmost [target] k). cbn [topmost].
    destruct (decide (k ∈ target.*1)); [done | by apply get_own_absent].
  - apply Forall_app in Hdup as [Hdup Hps]. rewrite Forall_singleton in Hps.
    rewrite foldl_snoc, reverse_snoc. rewrite get_own_assign by exact Hps.
    cbn [app topmost]. by rewrite IH.
Qed.

Lemma topmost_optional (b : bool) (ps : props) (layers : list props) (k : string) :
  b = true ∨ ps = [] →
  topmost ((if b then [ps] else []) ++ layers) k = topmost (ps :: layers) k.
Proof.
  intros [-> | ->]; [done |]. cbn [topmost].
  rewrite (decide_False (P := k ∈ [].*1)) by apply not_elem_of_nil.
  by destruct b.
Qed.

Lemma topmost_snoc_nil (layers : list props) (k : string) :
  topmost (layers ++ [[]]) k = topmost layers k.
Proof.
  induction layers as [|ps layers IH]; cbn [app topmost].
  - by rewrite (decide_False (P := k ∈ [].*1)) by apply not_elem_of_nil.
  - by rewrite IH.
Qed.

(** X15.  The object [getNestedOptions] creates has, under every key, the
    value of the last layer that has the key, the layers being, in
    order: the defaults, the group of the service, the group of the
    method call, the override.  A later layer hides an earlier one key
    by key, also with a value that is [undefined]; a group that is not
    an object is no layer. *)
Theorem getNestedOptions_layers (this : WebserviceMethodCall) (h : Heap)
    (name : string) (defaults override : source) (k : string) :
  let de := source_props h defaults in
  let se := source_props h (Value (service_group this name)) in
  let ca := source_props h (Value (get_own (options this) name)) in
  let ov := source_props h override in
  NoDup de.*1 → NoDup se.*1 → NoDup ca.*1 → NoDup ov.*1 →
  get_own (getNestedOptions this h name defaults override) k
  = topmost [ov; ca; se; de] k.
Proof.
  intros de se ca ov Hde Hse Hca Hov.
  assert (∀ v, isObj v = false → source_props h (Value v) = []) as Hprim
    by (by intros [| | | | | |]).
  assert (getNestedOptions this h name defaults override
          = foldl assign []
              ((([de]
                 ++ (if isObj (service_group this name) then [se] else []))
                ++ (if isObj (get_own (options this) name) then [ca] else []))
               ++ (if isObj_source override then [ov] else []))) as ->.
  { unfold getNestedOptions, se, ca, ov, de, service_group.
    destruct (ws this) as [w|]; cbn [isObj];
      [destruct (isObj (get_own (_options w) name))|];
      destruct (isObj (get_own (options this) name));
      destruct (isObj_source override); reflexivity. }
  rewrite get_own_foldl_assign.
  2: { repeat (apply Forall_app; split); repeat case_match;
         repeat constructor; done. }
  rewrite topmost_snoc_nil, !reverse_app.
  assert (∀ (b : bool) (ps : props), reverse (if b then [ps] else [])
                                     = if b then [ps] else []) as Hrev
    by (by intros []).
  rewrite !Hrev. change (reverse [de]) with [de].
  rewrite topmost_optional.
  2: { destruct override as [ps|v]; [by left |]. simpl.
       destruct (isObj v) eqn:Hv; [by left | right]. by apply Hprim. }
  cbn [topmost].
  rewrite topmost_optional.
  2: { destruct (isObj _) eqn:Hv; [by left | right]. by apply Hprim. }
  cbn [topmost].
  rewrite topmost_optional.
  2: { destruct (isObj _) eqn:Hv; [by left | right]. by apply Hprim. }
  reflexivity.
Qed.

(** [getNestedOptions_layers], at the key [a] of a group that the
    service, the method call and the override all have. *)
Lemma getNestedOptions_layers_witness :
  let w := {| _id := "s"; _options := [("request", VRef 0)];
              _httpMethods := STANDARD_HTTP |} in
  let this := {| name := "m"; http := "GET"; path := "/";
                 options := [("request", VRef 1)]; ws := Some w |} in
  let h := [Obj CObject [("a", VNum 1); ("b", VNum 1)];
            Obj CObject [("a", VNum 2); ("c", VUndef)]] in
  get_own (getNestedOptions this h "request" (Literal [("c", VNum 0)])
             (Literal [("a", VNum 3)])) "a" = VNum 3.
Proof.
  intros w this h.
  rewrite (getNestedOptions_layers this h "request" (Literal [("c", VNum 0)])
             (Literal [("a", VNum 3)]) "a");
    [reflexivity | | | |]; apply (bool_decide_unpack _); vm_compute; reflexivity.
Defined.

Lemma getNestedOptions_override (this : WebserviceMethodCall) (h : Heap)
    (name : string) (defaults : source) (ov : props) (k : string) :
  NoDup ov.*1 → k ∈ ov.*1 →
  get_own (getNestedOptions this h name defaults (Literal ov)) k = get_own ov k.
Proof.
  intros Hdup Hk. unfold getNestedOptions. cbn [isObj_source].
  rewrite foldl_snoc. cbn [source_props].
  by rewrite get_own_assign, decide_True.
Qed.

(** X16.  With no headers at the call and no [headers] option of the service
    or of the method call, the headers [buildHeaders] makes are the
    defaults and nothing else: [Content-Type] is the [contentType]
    option when that is a string that is not blank; [Accept] is the
    [acceptType] option when that is such a string, and the
    [contentType] option when [acceptType] is [true]. *)
Theorem buildHeaders_defaults (this : WebserviceMethodCall)
    (localHeaders : value) (st : state) :
  isObj localHeaders = false →
  isObj (service_group this "headers") = false →
  isObj (get_own (options this) "headers") = false →
  let accept :=
    if decide (acceptType this = VBool true) then contentType this
    else acceptType this in
  buildHeaders this localHeaders st
  = (with_heap st
       (heap st
        ++ [Obj (CHeaders
                   ((if is_nonblank_string (contentType this)
                     then [("content-type", ToString (heap st) (contentType this))]
                     else [])
                    ++ (if is_nonblank_string accept
                        then [("accept", ToString (heap st) accept)] else []))) []]),
     Ok (VRef (length (heap st)))).
Proof.
  intros Hlocal Hservice Hcall accept.
  unfold buildHeaders, bind, get_heap.
  assert (instanceof_Headers (heap st) localHeaders = false) as ->
    by (by destruct localHeaders).
  fold accept.
  assert (∀ defaults,
            getNestedOptions this (heap st) "headers" (Literal defaults)
              (Value localHeaders)
            = assign [] defaults) as Hnested.
  { intros defaults. unfold getNestedOptions. unfold service_group in Hservice.
    rewrite Hcall. cbn [isObj_source]. rewrite Hlocal.
    destruct (ws this) as [w|]; [by rewrite Hservice | done]. }
  rewrite Hnested. unfold alloc, with_heap.
  destruct (is_nonblank_string (contentType this)),
    (is_nonblank_string accept); reflexivity.
Qed.

(** [buildHeaders_defaults], at [acceptType] [true]. *)
Lemma buildHeaders_defaults_witness :
  let this := constructor "list" "/docs" None
                (Some [("contentType", VStr "application/json");
                       ("acceptType", VBool true)]) in
  buildHeaders this VUndef (Sample.initial [])
  = (Sample.initial [Obj (CHeaders [("content-type", "application/json");
                                    ("accept", "application/json")]) []],
     Ok (VRef 0)).
Proof.
  intros this.
  by rewrite (buildHeaders_defaults this VUndef (Sample.initial [])
                eq_refl eq_refl eq_refl).
Defined.

End OptionFacts.

(** ** Rules of HTTP methods *)

Module RulesFacts.
Import Js Defs Eff Utils MethodCall Spec UtilsFacts MethodCallFacts OptionFacts.

(** X17.  The arguments of [defineHTTP] by what they are, not by their place.
    The rules, an object, may come first and the template, which is no
    object, second.  Of two objects the first is the rules and the
    second is ignored.  When neither is an object there are no rules:
    the second has no part in the rules that are returned. *)
Theorem defineHTTP_arguments (h : Heap) (a b : value) :
  (isObj a = true → isObj b = false → defineHTTP h a b = defineHTTP h b a)
  ∧ (isObj a = true → isObj b = true → defineHTTP h a b = defineHTTP h VUndef a)
  ∧ (isObj a = false → isObj b = false →
       (defineHTTP h a b).1 = (defineHTTP h a VUndef).1).
Proof.
  split; [|split].
  - intros Ha Hb. unfold defineHTTP. by rewrite Ha, Hb.
  - intros Ha Hb. unfold defineHTTP. rewrite Ha. simpl. rewrite Ha.
    by destruct b.
  - intros Ha Hb. unfold defineHTTP. rewrite Ha, Hb. simpl.
    destruct a as [| | | |t| |]; try done.
    destruct (STANDARD_HTTP !! t); [done |]. by destruct (decide (t = "__proto__")).
Qed.

(** [defineHTTP_arguments], at [PUT] and a rule. *)
Lemma defineHTTP_arguments_witness :
  let h := [Obj CObject [("idempotent", VBool false)]] in
  defineHTTP h (VRef 0) (VStr "PUT") = defineHTTP h (VStr "PUT") (VRef 0).
Proof.
  intros h. by apply (proj1 (defineHTTP_arguments h (VRef 0) (VStr "PUT"))).
Defined.

(** X18.  The rules [defineHTTP] returns, for a template that is no object
    and not [__proto__]: under every key, the value the given rules have
    for it when they have the key, and otherwise the value of the base,
    which is the standard rules of the template when it names them,
    letter for letter, and the default rules when it does not.  A
    template that is a string and names no standard rules is reported on
    the console, and nothing else is. *)
Theorem defineHTTP_rules (h : Heap) (template rules : value) (k : string) :
  isObj template = false → template ≠ VStr "__proto__" →
  NoDup (own_properties h rules).*1 →
  let standard := match template with VStr t => STANDARD_HTTP !! t | _ => None end in
  get_own (defineHTTP h template rules).1 k
  = topmost [own_properties h rules; HttpRules_object (default TEMPLATE_HTTP standard)] k
  ∧ (defineHTTP h template rules).2
    = match template, standard with
      | VStr t, None => [Unsupported_standard_HTTP_method t rules]
      | _, _ => []
      end.
Proof.
  intros Ht Hproto Hdup standard. unfold defineHTTP. rewrite Ht.
  assert (NoDup (HttpRules_object (default TEMPLATE_HTTP standard)).*1) as Hbase.
  { apply (bool_decide_unpack _). by vm_compute. }
  assert (∀ base : props,
            NoDup base.*1 →
            get_own (foldl assign [] (if isObj rules
                                      then [base] ++ [own_properties h rules]
                                      else [base])) k
            = topmost [own_properties h rules; base] k) as Hfold.
  { intros base Hb. destruct (isObj rules) eqn:Hr.
    - rewrite get_own_foldl_assign by (by repeat constructor).
      by rewrite topmost_snoc_nil.
    - rewrite get_own_foldl_assign by (by repeat constructor).
      rewrite topmost_snoc_nil.
      assert (own_properties h rules = []) as -> by (by destruct rules).
      cbn [topmost]. by rewrite (decide_False (P := k ∈ [].*1)) by apply not_elem_of_nil. }
  destruct template as [| | | |t| |]; try done; try (split; [by apply Hfold | done]).
  subst standard. cbv beta iota.
  destruct (STANDARD_HTTP !! t) as [r|] eqn:Hstd; [split; [by apply Hfold | done] |].
  rewrite decide_False by congruence. split; [by apply Hfold | done].
Qed.

(** [defineHTTP_rules], at the template [get] in small letters: the
    base is the default rules, not those of [GET]. *)
Lemma defineHTTP_rules_witness :
  let h := [Obj CObject [("safe", VBool true)]] in
  get_own (defineHTTP h (VStr "get") (VRef 0)).1 "safe" = VBool true
  ∧ get_own (defineHTTP h (VStr "get") (VRef 0)).1 "requestBody" = VNull
  ∧ (defineHTTP h (VStr "get") (VRef 0)).2
    = [Unsupported_standard_HTTP_method "get" (VRef 0)].
Proof.
  intros h.
  assert (NoDup (own_properties h (VRef 0)).*1) as Hdup
    by (apply (bool_decide_unpack _); by vm_compute).
  split; [|split].
  - by rewrite (proj1 (defineHTTP_rules h (VStr "get") (VRef 0) "safe"
                         eq_refl ltac:(discriminate) Hdup)).
  - by rewrite (proj1 (defineHTTP_rules h (VStr "get") (VRef 0) "requestBody"
                         eq_refl ltac:(discriminate) Hdup)).
  - by rewrite (proj2 (defineHTTP_rules h (VStr "get") (VRef 0) "safe"
                         eq_refl ltac:(discriminate) Hdup)).
Defined.

End RulesFacts.

(** ** The method calls of a service *)

Module ServiceFacts.
Import Js Defs Eff Utils MethodCall Spec Service Builder.

Lemma has_call_spec (this : Instance) (n : string) :
  has_call this n = true ↔ n ∈ (_methodCalls this).*1 ∨ n ∈ Object_prototype.
Proof.
  unfold has_call. rewrite orb_true_iff, !bool_decide_eq_true. done.
Qed.

(** X19.  [_addCall] refuses a method call, with [RangeError], exactly when
    its name is that of a method call the service has, or a name of
    [Object.prototype] such as [toString] or [constructor]; the method
    calls and the members of the service then stay as they are.  When it
    accepts the method call, this becomes the last of the method calls,
    and its name is a member of the service from then on. *)
Theorem addCall_refuses (this : Instance) (methodCall : WebserviceMethodCall) :
  let r := _addCall this (AMethodCall methodCall) in
  (r.2 = Throw (RangeError "Duplicate MethodCall name found")
   ↔ name methodCall ∈ (_methodCalls this).*1 ∨ name methodCall ∈ Object_prototype)
  ∧ (r.2 ≠ Ok tt →
       _methodCalls r.1 = _methodCalls this ∧ members r.1 = members this)
  ∧ (r.2 = Ok tt →
       _methodCalls r.1 = _methodCalls this ++ [(name methodCall, methodCall)]
       ∧ name methodCall ∈ members r.1
       ∧ ∀ n, n ∈ members this → n ∈ members r.1).
Proof.
  cbv zeta. rewrite <- has_call_spec. unfold _addCall.
  destruct (has_call this (name methodCall)); simpl.
  - repeat split; done.
  - destruct (bool_decide (name methodCall ∈ members this)) eqn:Hm; simpl.
    + apply bool_decide_eq_true in Hm. repeat split; done.
    + repeat split; try done.
      * apply elem_of_app. right. by left.
      * intros n Hn. apply elem_of_app. by left.
Qed.

(** [addCall_refuses], at [toString] and a service without method calls. *)
Lemma addCall_refuses_witness :
  let this := {| _methodCalls := []; members := []; written := [] |} in
  (_addCall this (AMethodCall (constructor "toString" "/s" None None))).2
  = Throw (RangeError "Duplicate MethodCall name found").
Proof.
  intros this.
  apply (proj1 (addCall_refuses this (constructor "toString" "/s" None None))).
  right. apply (bool_decide_unpack _). by vm_compute.
Defined.

Lemma _addCall_cases (this : Instance) (methodCall : WebserviceMethodCall) :
  let r := _addCall this (AMethodCall methodCall) in
  if has_call this (name methodCall)
  then r.2 = Throw (RangeError "Duplicate MethodCall name found")
       ∧ _methodCalls r.1 = _methodCalls this
  else r.2 = Ok tt
       ∧ _methodCalls r.1 = _methodCalls this ++ [(name methodCall, methodCall)].
Proof.
  cbv zeta. unfold _addCall. destruct (has_call this (name methodCall)); [done |].
  by destruct (bool_decide _).
Qed.

Lemma extend_methods_cons (w : Webservice) (instance : Instance)
    (methodCall : WebserviceMethodCall) (_methods : list WebserviceMethodCall) :
  extend_methods w instance (methodCall :: _methods)
  = match _addCall instance (AMethodCall (attached w methodCall)) with
    | (instance, Ok _) => extend_methods w instance _methods
    | (instance, Throw e) => (instance, Throw e)
    end.
Proof. done. Qed.

(** X20.  The loop of [extend], from a service whose method calls have
    distinct names, none of [Object.prototype]: it goes through exactly
    when the names of the new method calls are distinct from each other
    and from those the service has, and none is a name of
    [Object.prototype].  The service then has its method calls and,
    after them, the new ones in their order, each with the service set.
    Whether the loop goes through or not, the names stay distinct. *)
Theorem extend_methods_registers (w : Webservice) (instance : Instance)
    (_methods : list WebserviceMethodCall) :
  distinct_calls instance →
  let r := extend_methods w instance _methods in
  (r.2 = Ok tt
   ↔ NoDup ((_methodCalls instance).*1 ++ (name <$> _methods))
     ∧ ∀ n, n ∈ (name <$> _methods) → n ∉ Object_prototype)
  ∧ (r.2 = Ok tt →
       _methodCalls r.1
       = _methodCalls instance ++ ((λ mc, (name mc, attached w mc)) <$> _methods))
  ∧ distinct_calls r.1.
Proof.
  revert instance. induction _methods as [|mc _methods IH]; intros instance Hd.
  - cbv zeta. simpl. rewrite !app_nil_r. destruct Hd as [Hdup Hproto].
    repeat split; try done. intros n Hn. by apply not_elem_of_nil in Hn.
  - cbv zeta. rewrite extend_methods_cons.
    pose proof (_addCall_cases instance (attached w mc)) as Hcases.
    pose proof (has_call_spec instance (name mc)) as Hspec.
    cbv zeta in Hcases. change (name (attached w mc)) with (name mc) in Hcases.
    destruct (_addCall instance (AMethodCall (attached w mc))) as [instance' r]
      eqn:Hcall.
    destruct (has_call instance (name mc)); simpl in Hcases.
    + destruct Hcases as [-> Hcalls]. split; [|split; [done |]].
      * split; [done |]. intros [Hnd Hall]. exfalso.
        destruct (proj1 Hspec eq_refl) as [Hin|Hin].
        -- rewrite fmap_cons in Hnd. apply NoDup_app in Hnd as (_ & Hdisj & _).
           apply (Hdisj _ Hin). by left.
        -- apply (Hall (name mc)); [by left | done].
      * destruct Hd as [Hdup Hproto]. unfold distinct_calls. simpl.
        by rewrite Hcalls.
    + destruct Hcases as [-> Hcalls].
      assert ((name mc ∉ (_methodCalls instance).*1) ∧ (name mc ∉ Object_prototype))
        as [Hfresh Hnp].
      { split; intros Hin.
        - by pose proof (proj2 Hspec (or_introl Hin)).
        - by pose proof (proj2 Hspec (or_intror Hin)). }
      assert (distinct_calls instance') as Hd'.
      { destruct Hd as [Hdup Hproto]. unfold distinct_calls. rewrite Hcalls, fmap_app.
        split.
        - apply NoDup_app. split; [done |]. split; [|by apply NoDup_singleton].
          intros n Hn Hn'. apply list_elem_of_singleton in Hn'. simpl in Hn'.
          by subst n.
        - intros n [Hn|Hn]%elem_of_app; [by apply Hproto |].
          apply list_elem_of_singleton in Hn. simpl in Hn. by subst n. }
      destruct (IH instance' Hd') as (Hiff & Hres & Hdist). cbv zeta in Hiff, Hres.
      split; [|split; [|done]].
      * rewrite Hiff, Hcalls, !fmap_app, fmap_cons. simpl.
        rewrite <- app_assoc. simpl. split.
        -- intros [Hnd Hall]. split; [done |].
           intros n [->|Hn]%elem_of_cons; [done | by apply Hall].
        -- intros [Hnd Hall]. split; [done |].
           intros n Hn. apply Hall. by right.
      * intros Hok. specialize (Hres Hok). rewrite Hres, Hcalls.
        by rewrite fmap_cons, <- app_assoc.
Qed.

(** [extend_methods_registers], at two method calls of one name. *)
Lemma extend_methods_registers_witness :
  let this := {| _methodCalls := []; members := []; written := [] |} in
  let calls := [constructor "list" "/a" None None; constructor "list" "/b" None None] in
  ∃ e, (extend_methods (Sample.service "s") this calls).2 = Throw e.
Proof.
  intros this calls.
  assert (distinct_calls this) as Hd.
  { split; [constructor |]. intros n Hn. by apply not_elem_of_nil in Hn. }
  destruct (extend_methods (Sample.service "s") this calls).2 as [[]|e] eqn:Hr;
    [|by exists e].
  apply (proj1 (extend_methods_registers (Sample.service "s") this calls Hd)) in Hr
    as [Hdup _].
  exfalso. revert Hdup. apply (bool_decide_unpack _). by vm_compute.
Defined.

End ServiceFacts.

(** ** The request that is built *)

Module RequestFacts.
Import Js Defs Eff Utils MethodCall Spec UtilsFacts MethodCallFacts OptionFacts BodyFacts.

Section ensures.
Context `{Platform}.
Variable this : WebserviceMethodCall.
Variable lh : loc.

Lemma ensures_ret {A} (P : A → Prop) (a : A) :
  P a → ensures (Headers_at lh) P (ret a).
Proof. intros Ha st HI. split; [done |]. simpl. by intros a' [= <-]. Qed.

Lemma ensures_throw {A} (P : A → Prop) (e : error) :
  ensures (Headers_at lh) P (@throw A e).
Proof. intros st HI. by split. Qed.

Lemma ensures_bind {A B} (Q : A → Prop) (P : B → Prop) (m : M A) (k : A → M B) :
  ensures (Headers_at lh) Q m → (∀ a, Q a → ensures (Headers_at lh) P (k a)) →
  ensures (Headers_at lh) P (bind m k).
Proof.
  intros Hm Hk st HI. unfold bind. destruct (Hm st HI) as [HI1 HQ].
  destruct (m st) as [st1 [a|e]]; simpl in *.
  - apply Hk; auto.
  - by split.
Qed.

(** A computation that keeps the instance, whatever it returns. *)
Lemma ensures_keeps {A} (m : M A) :
  (∀ st, Headers_at lh st → Headers_at lh (m st).1) →
  ensures (Headers_at lh) (λ _, True) m.
Proof. intros Hm st HI. split; [by apply Hm | done]. Qed.

Lemma ensures_then {A B} (P : B → Prop) (m : M A) (k : A → M B) :
  ensures (Headers_at lh) (λ _, True) m → (∀ a, ensures (Headers_at lh) P (k a)) →
  ensures (Headers_at lh) P (bind m k).
Proof. intros Hm Hk. apply (ensures_bind (λ _, True)); auto. Qed.

Lemma ensures_get_heap : ensures (Headers_at lh) (λ _, True) get_heap.
Proof. by apply ensures_keeps. Qed.

Lemma ensures_log (e : console_entry) : ensures (Headers_at lh) (λ _, True) (log e).
Proof. by apply ensures_keeps. Qed.

Lemma ensures_lift {A} (r : result A) : ensures (Headers_at lh) (λ _, True) (lift r).
Proof. by apply ensures_keeps. Qed.

Lemma ensures_alloc (o : object) : ensures (Headers_at lh) (λ _, True) (alloc o).
Proof.
  apply ensures_keeps. intros st (es & ps & Hlh). exists es, ps. simpl.
  by apply lookup_app_l_Some.
Qed.

(** An object is replaced by one of its class. *)
Lemma Headers_at_store (l : loc) (o : object) (ps' : props) (st : state) :
  heap st !! l = Some o → Headers_at lh st →
  Headers_at lh (store l (Obj (cls o) ps') st).1.
Proof.
  intros Hl (es & ps & Hlh). unfold Headers_at. simpl.
  destruct (decide (l = lh)) as [->|Hne].
  - rewrite Hlh in Hl. injection Hl as <-. exists es, ps'. simpl.
    apply list_lookup_insert_eq. by eapply lookup_lt_Some.
  - exists es, ps. by rewrite list_lookup_insert_ne.
Qed.

Lemma ensures_delete_property (data : value) (key : string) :
  ensures (Headers_at lh) (λ _, True) (delete_property data key).
Proof.
  apply ensures_keeps. intros st HI. unfold delete_property, bind, get_heap.
  destruct data as [| | | | |l|]; try done.
  destruct (heap st !! l) as [o|] eqn:Hl; [|done].
  pose proof (Headers_at_store l o (delete_own (own o) key) st Hl HI) as Hstore.
  destruct (cls o); try done. by destruct (decide (key = "length")).
Qed.

Lemma ensures_Headers_set (headers : value) (name v : string) :
  ensures (Headers_at lh) (λ _, True) (Headers_set headers name v).
Proof.
  apply ensures_keeps. intros st HI. unfold Headers_set, bind, get_heap.
  destruct headers as [| | | | |l|]; try done.
  destruct (heap st !! l) as [[[] ps]|] eqn:Hl; try done.
  destruct HI as (es' & ps' & Hlh). unfold Headers_at. simpl.
  destruct (decide (l = lh)) as [->|Hne].
  - eexists _, _. apply list_lookup_insert_eq. by eapply lookup_lt_Some.
  - exists es', ps'. by rewrite list_lookup_insert_ne.
Qed.

Lemma ensures_getMimeType (data jsonObjects : value) :
  ensures (Headers_at lh) (λ _, True) (getMimeType data jsonObjects).
Proof.
  apply ensures_keeps. intros st (es & ps & Hlh).
  destruct (getMimeType_throws data jsonObjects st) as (st' & e & -> & Hheap & _).
  exists es, ps. simpl. by rewrite Hheap.
Qed.

Lemma ensures_buildHeaders (localHeaders : value) :
  ensures (Headers_at lh) (λ _, True) (buildHeaders this localHeaders).
Proof.
  apply ensures_then; [apply ensures_get_heap |]. intros h.
  case_match; [by apply ensures_ret | apply ensures_alloc].
Qed.

Lemma ensures_setupBody (data headers : value) :
  ensures (Headers_at lh) (λ _, True) (setupBody this data headers).
Proof.
  unfold setupBody.
  apply ensures_then; [apply ensures_buildHeaders |]. intros hd.
  apply ensures_then; [apply ensures_get_heap |]. intros h.
  apply ensures_then.
  { case_match; [|by apply ensures_ret].
    apply ensures_then; [apply ensures_getMimeType |]. intros ct.
    apply ensures_then; [|intros _; by apply ensures_ret].
    case_match; [apply ensures_Headers_set | by apply ensures_ret]. }
  intros ct. apply ensures_then; [apply ensures_get_heap |]. intros h'.
  apply ensures_then; [|intros d; by apply ensures_ret].
  repeat case_match; try (by apply ensures_ret); try apply ensures_lift;
    apply ensures_throw.
Qed.

Lemma ensures_parseURL_replacer placeholder data removeUsed missing arguments :
  ensures (Headers_at lh) (λ _, True)
    (parseURL_replacer placeholder data removeUsed missing arguments).
Proof.
  apply ensures_then; [apply ensures_get_heap |]. intros h.
  cbv zeta. destruct (decide _); [|by apply ensures_ret].
  apply ensures_then; [|intros _; by apply ensures_ret].
  destruct removeUsed; [apply ensures_delete_property | by apply ensures_ret].
Qed.

Lemma ensures_replaceAll placeholder data removeUsed input s :
  ∀ skip pos missing,
    ensures (Headers_at lh) (λ _, True)
      (replaceAll placeholder data removeUsed input skip pos s missing).
Proof.
  induction s as [|c s IH]; intros skip pos missing.
  - by apply ensures_ret.
  - destruct skip as [|skip]; [|apply IH]. cbn [replaceAll].
    destruct (exec_at (pattern placeholder) (String c s)) as [groups|].
    + apply ensures_then; [apply ensures_parseURL_replacer |]. intros [m v].
      apply ensures_then; [apply ensures_get_heap |]. intros h.
      apply ensures_then; [apply IH |]. intros [m' out]. by apply ensures_ret.
    + apply ensures_then; [apply IH |]. intros [m' out]. by apply ensures_ret.
Qed.

Lemma ensures_parseURL (data : value) (removeUsed : bool) :
  ensures (Headers_at lh) (λ _, True) (parseURL this data removeUsed).
Proof.
  apply ensures_then; [apply ensures_get_heap |]. intros h.
  cbv zeta. destruct (getPlaceholders _ _ _); [|by apply ensures_ret].
  destruct (negb _); [by apply ensures_ret |].
  apply ensures_then; [apply ensures_replaceAll |]. intros [m out].
  destruct (_ <? _); [|by apply ensures_ret].
  apply ensures_then; [apply ensures_log |]. intros _. apply ensures_throw.
Qed.

End ensures.

(** X21.  In the request that [makeRequest] returns, the method is the
    HTTP method of the method call, and the headers are the object that
    [buildHeaders] returned for the [headers] of the options, of the
    empty object when there are no options: it was an instance of
    [Headers] then, and it is one when [makeRequest] returns.  No
    [request] option of the service or of the method call replaces
    either. *)
Theorem makeRequest_method_and_headers `{Platform} (this : WebserviceMethodCall)
    (options : value) (st st' : state) (request : Request) :
  makeRequest this options st = (st', Ok request) →
  get_own (req_opts request) "method" = VStr (http this)
  ∧ ∃ st0 st1 localHeaders headers,
      buildHeaders this localHeaders st0 = (st1, Ok headers)
      ∧ (options ≠ VUndef →
           st0 = st ∧ localHeaders = Get (heap st) options "headers")
      ∧ (options = VUndef →
           st0 = with_heap st (heap st ++ [Obj CObject []])
           ∧ localHeaders = inherited CObject "headers")
      ∧ get_own (req_opts request) "headers" = headers
      ∧ instanceof_Headers (heap st1) headers = true
      ∧ instanceof_Headers (heap st') headers = true.
Proof.
  intros Hmk. unfold makeRequest in Hmk.
  destruct ((if decide (options = VUndef) then alloc (Obj CObject []) else ret options) st)
    as [st0 [options'|e]] eqn:Hfirst; [|by destruct (decide (options = VUndef))].
  rewrite (bind_Ok _ _ _ _ _ Hfirst) in Hmk.
  destruct (httpMethods this !! http this) as [methOpts|]; [|done].
  destruct (decide (options' = VNull)); [done |].
  rewrite (bind_Ok _ _ st0 st0 (heap st0)) in Hmk by done.
  destruct (buildHeaders_instance this (Get (heap st0) options' "headers") st0)
    as (st1 & lh & es & ps & Hbuild & Hlh).
  rewrite (bind_Ok _ _ _ _ _ Hbuild) in Hmk.
  set (P := λ request : Request,
         get_own (req_opts request) "method" = VStr (http this)
         ∧ get_own (req_opts request) "headers" = VRef lh).
  assert (P request ∧ Headers_at lh st') as [[Hmethod Hheaders] (es' & ps' & Hlh')].
  { revert Hmk.
    match goal with
    | |- ?m st1 = _ → _ => enough (ensures (Headers_at lh) P m) as Hens
    end.
    { intros Hmk. destruct (Hens st1) as [HI HP]; [by exists es, ps |].
      rewrite Hmk in HI, HP. split; [by apply HP | exact HI]. }
    apply ensures_then; [apply ensures_get_heap |]. intros h1. cbv zeta.
    destruct (_ && _); [apply ensures_throw |].
    apply ensures_then; [apply ensures_parseURL |]. intros url.
    apply ensures_then; [apply ensures_get_heap |]. intros h2.
    set (reqOpts := getNestedOptions this h2 "request" (Value VUndef)
                      (Literal [("method", VStr (http this)); ("headers", VRef lh)])).
    assert (get_own reqOpts "method" = VStr (http this)
            ∧ get_own reqOpts "headers" = VRef lh) as [Hmethod Hheaders].
    { unfold reqOpts. split; rewrite getNestedOptions_override; try done;
        try (apply (bool_decide_unpack _); by vm_compute). }
    apply (ensures_bind lh
             (λ reqOpts', get_own reqOpts' "method" = VStr (http this)
                          ∧ get_own reqOpts' "headers" = VRef lh)).
    { destruct (notNil _); [|by apply ensures_ret].
      apply ensures_then; [apply ensures_setupBody |]. intros body.
      apply ensures_ret. by rewrite !get_own_set_own. }
    intros reqOpts' [Hm Hh]. apply ensures_then; [apply ensures_get_heap |].
    intros h3. apply ensures_then; [apply ensures_log |]. intros _.
    by apply ensures_ret. }
  split; [exact Hmethod |].
  exists st0, st1, (Get (heap st0) options' "headers"), (VRef lh).
  split; [exact Hbuild |].
  destruct (decide (options = VUndef)) as [->|Hne].
  - unfold alloc in Hfirst. injection Hfirst as <- <-.
    split; [done |]. split.
    { intros _. split; [done |]. unfold Get. simpl.
      by rewrite lookup_app_r, Nat.sub_diag. }
    split; [exact Hheaders |].
    unfold instanceof_Headers, class_of. by rewrite Hlh, Hlh'.
  - unfold ret in Hfirst. injection Hfirst as <- <-.
    split; [done |]. split; [done |]. split; [exact Hheaders |].
    unfold instanceof_Headers, class_of. by rewrite Hlh, Hlh'.
Qed.

(** [makeRequest_method_and_headers], at a method call whose [request]
    option has a method of its own. *)
Lemma makeRequest_method_and_headers_witness :
  let this := constructor "list" "/docs" None (Some [("request", VRef 1)]) in
  let st := Sample.initial [Obj CObject []; Obj CObject [("method", VStr "POST")]] in
  let P := Sample.platform (Sample.response_of "") in
  ∃ request, (@makeRequest P this (VRef 0) st).2 = Ok request
             ∧ get_own (req_opts request) "method" = VStr "GET"
             ∧ get_own (req_opts request) "headers" = VRef 2
             ∧ instanceof_Headers (heap (@makeRequest P this (VRef 0) st).1)
                 (get_own (req_opts request) "headers") = true.
Proof.
  intros this st P.
  destruct (@makeRequest P this (VRef 0) st) as [st' [request|e]] eqn:Hmk;
    [|by vm_compute in Hmk].
  exists request. split; [done |].
  destruct (@makeRequest_method_and_headers P this (VRef 0) st st' request Hmk)
    as (Hmethod & st0 & st1 & localHeaders & headers & Hbuild & _ & _ & Hheaders
        & _ & Hinstance).
  split; [exact Hmethod |]. split; [|by rewrite Hheaders].
  vm_compute in Hmk. by injection Hmk as _ <-.
Defined.

End RequestFacts.
